(** * splat2mc: the PLY -> mcfunction conversion pipeline

    A shallow embedding of [src/splat2mc/converter.py]: the attribute decoder
    ([load_ply]), the normalizer ([normalize_splats]), the selector
    ([downsample_splats]), the command emitter ([generate_mcfunction]) and
    the pipeline that chains them ([convert_ply_to_datapack]), followed by
    the properties the specification states about them.

    Effects.  Python exceptions are an error monad ([result]); the state of
    the NumPy random generator is passed explicitly; reading the PLY file and
    writing the datapack are outside the model, which starts from the vertex
    table and ends with the text of the script.

    The datapack writer ([generate_datapack]), the pipeline with its
    messages and the commands of [src/splat2mc/cli.py] ([convert], [info],
    [batch]) are modelled after the pipeline: what they print and what they
    do to the file system is recorded as a list of events, in a command
    monad over the events and the generator.  Parsing the PLY file, the
    parsing of the command line and failures of the operating system stay
    outside the model.

    Numbers.  The program computes with Python floats and NumPy float arrays.
    They are modelled here as exact rationals ([Q]): every arithmetic
    operation and comparison of the source is kept, in the source's order, but
    rounding, infinities and the negative zero are outside the model.  NaN is
    modelled where the input can hold it, in the decoder ([WithNaN]).
    Numeric results are compared with [==] ([Qeq]); records and lists that
    the code passes on untouched are compared with [=].  The properties
    stated are of two kinds: a result is the value of the source's own
    expression, or a fact that rounding does not change (a value returned by
    [min] or [max], the digits of a number that is written as it is, a
    count, an order, a file written).  Bounds that exact arithmetic would
    give beyond these, such as the exact extent of the normalized cloud, are
    not stated: binary64 misses them by a unit in the last place. *)

From Stdlib Require Import QArith Qround Qabs Qminmax Lqa Lia ZArith List.
From Stdlib Require Import Sorted Permutation.
From Stdlib Require Import String Ascii DecimalString DecimalN DecimalNat.
From stdpp Require Import gmap strings.

Open Scope Q_scope.

(** ** Python exceptions as an error monad *)

Inductive exn : Type :=
| ValueError
| IndexError
| ZeroDivisionError.

Inductive result (A : Type) : Type :=
| Ok (a : A)
| Raise (e : exn).

Arguments Ok {A} a.
Arguments Raise {A} e.

Definition bind {A B : Type} (m : result A) (k : A -> result B) : result B :=
  match m with
  | Ok a => k a
  | Raise e => Raise e
  end.

Notation "'let*' v ':=' m 'in' k" := (bind m (fun v => k))
  (at level 10, v name, m at level 100, k at level 200, only parsing).

Fixpoint try_map {A B : Type} (f : A -> result B) (l : list A) : result (list B) :=
  match l with
  | [] => Ok []
  | a :: l' => let* v := f a in let* vs := try_map f l' in Ok (v :: vs)
  end.

(** ** Python's comparisons and built-ins on numbers *)

(** [a < b]. *)
Definition py_lt (a b : Q) : bool := negb (Qle_bool b a).

(** [min(a, b)]: the first argument is kept unless the second is smaller. *)
Definition py_min (a b : Q) : Q := if py_lt b a then b else a.

(** [max(a, b)]: the first argument is kept unless the second is greater. *)
Definition py_max (a b : Q) : Q := if py_lt a b then b else a.

(** [min(xs)] and [max(xs)] over a list: [ValueError] on the empty list,
    otherwise a left-to-right scan that keeps the first extreme value. *)
Definition py_min_list (xs : list Q) : result Q :=
  match xs with
  | [] => Raise ValueError
  | a :: rest => Ok (fold_left py_min rest a)
  end.

Definition py_max_list (xs : list Q) : result Q :=
  match xs with
  | [] => Raise ValueError
  | a :: rest => Ok (fold_left py_max rest a)
  end.

(** [a or b] on numbers: [a] when it is truthy (non-zero), otherwise [b]. *)
Definition py_or (a b : Q) : Q := if Qeq_bool a 0 then b else a.

(** [a / b] on Python floats: [ZeroDivisionError] when [b] is zero. *)
Definition py_div (a b : Q) : result Q :=
  if Qeq_bool b 0 then Raise ZeroDivisionError else Ok (a / b).

(** ** The splat record *)

Record GaussianSplat : Type := mkSplat {
  x : Q;
  y : Q;
  z : Q;
  r : Q;        (* 0-1 *)
  g : Q;        (* 0-1 *)
  b : Q;        (* 0-1 *)
  opacity : Q;  (* 0-1 *)
  scale : Q     (* average scale *)
}.

(** ** Fixed-point formatting: [f"{v:.3f}"] and [f"{v:.2f}"] *)

(** Rounding of a non-negative rational to the nearest integer, ties to even,
    as Python's correctly rounded float formatting does on the exact value. *)
Definition round_half_even (q : Q) : Z :=
  let f := Qfloor q in
  match Qcompare (q - inject_Z f) (1 # 2) with
  | Lt => f
  | Gt => (f + 1)%Z
  | Eq => if Z.even f then f else (f + 1)%Z
  end.

Definition digit_char (n : Z) : ascii :=
  ascii_of_nat (48 + Z.to_nat (n mod 10)).

(** The last [d] decimal digits of [n], zero-padded on the left. *)
Fixpoint frac_digits (d : nat) (n : Z) : string :=
  match d with
  | O => EmptyString
  | S d' => frac_digits d' (n / 10) +:+ String (digit_char n) EmptyString
  end.

(** [str(n)] for a non-negative integer. *)
Definition int_digits (n : Z) : string :=
  NilZero.string_of_uint (N.to_uint (Z.to_N n)).

(** [format(q, ".<d>f")]: sign, integer digits, a point, exactly [d] digits.
    The rationals have one zero: the negative zero of binary64, which
    Python writes [-0.000], is outside the model. *)
Definition format_fixed (d : nat) (q : Q) : string :=
  let scaled := round_half_even (Qabs q * inject_Z (10 ^ Z.of_nat d)) in
  let ip := (scaled / 10 ^ Z.of_nat d)%Z in
  (if py_lt q 0 then "-" else "") +:+ int_digits ip +:+ "." +:+ frac_digits d scaled.

(** ** Command emitter *)

(** The clamped colour channel, [max(0, min(1, c))]. *)
Definition clamp_color (c : Q) : Q := py_max 0 (py_min 1 c).

(** [particle_scale = max(0.1, min(4.0, s.scale * 50))].  The product is
    exact here; binary64 rounds it, which can move the last digit written
    when the product is within [10^-15] of a tie. *)
Definition particle_scale (s : GaussianSplat) : Q :=
  py_max 0.1 (py_min 4.0 (scale s * 50)).

Definition format_pos (relative : bool) (s : GaussianSplat) : string :=
  if relative
  then "~" +:+ format_fixed 3 (x s) +:+ " ~" +:+ format_fixed 3 (y s)
           +:+ " ~" +:+ format_fixed 3 (z s)
  else format_fixed 3 (x s) +:+ " " +:+ format_fixed 3 (y s)
           +:+ " " +:+ format_fixed 3 (z s).

(** The f-string of the particle command. *)
Definition particle_line (relative : bool) (s : GaussianSplat) : string :=
  "particle dust{color:[" +:+ format_fixed 3 (clamp_color (r s))
    +:+ "," +:+ format_fixed 3 (clamp_color (g s))
    +:+ "," +:+ format_fixed 3 (clamp_color (b s))
    +:+ "],scale:" +:+ format_fixed 2 (particle_scale s)
    +:+ "} " +:+ format_pos relative s +:+ " 0 0 0 0 1 force".

Definition header (n : nat) : list string :=
  [ "# Generated by splat2mc";
    "# " +:+ NilZero.string_of_uint (Nat.to_uint n) +:+ " Gaussian splats";
    "" ].

(** One iteration of the loop over the splats: [continue] below the
    threshold, otherwise [lines.append(line)]. *)
Definition emit_step (relative : bool) (min_opacity : Q)
    (lines : list string) (s : GaussianSplat) : list string :=
  if py_lt (opacity s) min_opacity then lines
  else lines ++ [particle_line relative s].

(** The list [lines] when the loop has ended. *)
Definition mcfunction_lines (splats : list GaussianSplat) (relative : bool)
    (min_opacity : Q) : list string :=
  fold_left (emit_step relative min_opacity) splats (header (length splats)).

(** ["\n".join(lines)]. *)
Fixpoint join_lines (lines : list string) : string :=
  match lines with
  | [] => ""
  | [l] => l
  | l :: rest => l +:+ String "010" (join_lines rest)
  end.

Definition generate_mcfunction (splats : list GaussianSplat) (relative : bool)
    (min_opacity : Q) : string :=
  join_lines (mcfunction_lines splats relative min_opacity).

(** ** Normalizer *)

(** The splat the loop appends for [s]: each coordinate moved by the centre
    and multiplied by the scale factor, the scale multiplied by it. *)
Definition transform (center_x center_y center_z scale_factor : Q)
    (s : GaussianSplat) : GaussianSplat :=
  {| x := (x s - center_x) * scale_factor;
     y := (y s - center_y) * scale_factor;
     z := (z s - center_z) * scale_factor;
     r := r s;
     g := g s;
     b := b s;
     opacity := opacity s;
     scale := scale s * scale_factor |}.

Definition normalize_splats (splats : list GaussianSplat) (target_size : Q)
    (center : bool) : result (list GaussianSplat) :=
  match splats with
  | [] => Ok splats
  | _ :: _ =>
    let xs := map x splats in
    let ys := map y splats in
    let zs := map z splats in
    let* min_x := py_min_list xs in
    let* max_x := py_max_list xs in
    let* min_y := py_min_list ys in
    let* max_y := py_max_list ys in
    let* min_z := py_min_list zs in
    let* max_z := py_max_list zs in
    let range_x := py_or (max_x - min_x) 1 in
    let range_y := py_or (max_y - min_y) 1 in
    let range_z := py_or (max_z - min_z) 1 in
    let max_range := py_max (py_max range_x range_y) range_z in
    let* scale_factor := py_div target_size max_range in
    let* centers :=
      if center then
        let* center_x := py_div (min_x + max_x) 2 in
        let* center_y := py_div (min_y + max_y) 2 in
        let* center_z := py_div (min_z + max_z) 2 in
        Ok (center_x, center_y, center_z)
      else Ok (0, 0, 0) in
    let '(center_x, center_y, center_z) := centers in
    Ok (fold_left
          (fun normalized s =>
             normalized ++ [transform center_x center_y center_z scale_factor s])
          splats [])
  end.

(** ** Selector *)

(** [sorted(l, key=key, reverse=True)]: a stable sort into descending key
    order.  Python guarantees stability, also with [reverse=True], and the
    stable sort of a list under a total preorder is unique, so the algorithm
    does not matter; this is insertion sort.  An element is inserted in
    front of the already sorted later elements and moves right only past
    strictly greater keys, so equal keys keep their input order. *)
Fixpoint insert_desc {A : Type} (key : A -> Q) (a : A) (l : list A) : list A :=
  match l with
  | [] => [a]
  | h :: t => if py_lt (key a) (key h) then h :: insert_desc key a t
              else a :: h :: t
  end.

Fixpoint sorted_desc {A : Type} (key : A -> Q) (l : list A) : list A :=
  match l with
  | [] => []
  | a :: l' => insert_desc key a (sorted_desc key l')
  end.

(** The slice [l[:k]] for a Python integer [k]: the first [k] elements when
    [k >= 0], all but the last [-k] when [k < 0]. *)
Definition py_slice_to {A : Type} (l : list A) (k : Z) : list A :=
  if (0 <=? k)%Z then firstn (Z.to_nat k) l
  else firstn (Z.to_nat (Z.of_nat (length l) + k)) l.

(** [l[i]] for a non-negative index. *)
Definition py_index {A : Type} (l : list A) (i : nat) : result A :=
  match nth_error l i with
  | Some a => Ok a
  | None => Raise IndexError
  end.

(** The global NumPy generator with state [rng]:
    [np.random.choice(n, size, replace=...)] as a function of that state,
    which returns the drawn indices (or raises) and the next state. *)
Definition sampler (rng : Type) : Type :=
  nat -> Z -> bool -> rng -> result (list nat) * rng.

Section Selector.

Variable rng : Type.
Variable np_random_choice : sampler rng.

Definition downsample_splats (splats : list GaussianSplat) (max_count : Z)
    (method : string) (gen : rng) : result (list GaussianSplat) * rng :=
  if (Z.of_nat (length splats) <=? max_count)%Z then (Ok splats, gen)
  else if String.eqb method "opacity" then
    let sorted_splats := sorted_desc opacity splats in
    (Ok (py_slice_to sorted_splats max_count), gen)
  else
    let '(drawn, gen') :=
      np_random_choice (length splats) max_count false gen in
    (let* indices := drawn in try_map (py_index splats) indices, gen').

End Selector.

(** ** Attribute decoder *)

(** The vertex element of the PLY file as [plyfile] hands it over: a table of
    named numeric columns. *)
Abbreviation vertex_table := (gmap string (list Q)).

(** [name in vertex.data.dtype.names]. *)
Definition has_field (vertex : vertex_table) (name : string) : bool :=
  match vertex !! name with
  | Some _ => true
  | None => false
  end.

(** [np.array(vertex[name])]: [ValueError] when there is no such field. *)
Definition field (vertex : vertex_table) (name : string) : result (list Q) :=
  match vertex !! name with
  | Some col => Ok col
  | None => Raise ValueError
  end.

(** [np.clip(v, lo, hi)] on one element that is a number:
    [minimum(maximum(v, lo), hi)].  On NaN see [WithNaN.np_clip] below. *)
Definition np_clip (v lo hi : Q) : Q :=
  let m := if py_lt v lo then lo else v in
  if py_lt hi m then hi else m.

Definition ones_like (a : list Q) : list Q := repeat 1 (length a).

(** Element-wise sum of two arrays; arrays of different lengths do not
    broadcast ([ValueError]).  Columns of one table always agree in length. *)
Definition np_add (a c : list Q) : result (list Q) :=
  if Nat.eqb (length a) (length c)
  then Ok (map (fun p => fst p + snd p) (combine a c))
  else Raise ValueError.

Definition C0 : Q := 0.28209479177387814.

Section Decoder.

(** [np.exp] on one element, kept abstract: the rationals are not closed
    under the exponential. *)
Variable np_exp : Q -> Q.

(** [1 / (1 + np.exp(-v))] on one element that is a number.  On NaN see
    [WithNaN.sigmoid] below. *)
Definition sigmoid (v : Q) : Q := 1 / (1 + np_exp (- v)).

Definition decode_color (vertex : vertex_table) (xs : list Q)
    : result (list Q * list Q * list Q) :=
  if has_field vertex "f_dc_0" then
    let* dc0 := field vertex "f_dc_0" in
    let* dc1 := field vertex "f_dc_1" in
    let* dc2 := field vertex "f_dc_2" in
    Ok (map (fun v => 0.5 + v * C0) dc0,
        map (fun v => 0.5 + v * C0) dc1,
        map (fun v => 0.5 + v * C0) dc2)
  else if has_field vertex "red" then
    let* red := field vertex "red" in
    let* green := field vertex "green" in
    let* blue := field vertex "blue" in
    Ok (map (fun v => v / 255.0) red,
        map (fun v => v / 255.0) green,
        map (fun v => v / 255.0) blue)
  else Ok (ones_like xs, ones_like xs, ones_like xs).

Definition decode_opacity (vertex : vertex_table) (xs : list Q)
    : result (list Q) :=
  if has_field vertex "opacity" then
    let* opacity_logit := field vertex "opacity" in
    Ok (map sigmoid opacity_logit)
  else Ok (ones_like xs).

Definition decode_scale (vertex : vertex_table) (xs : list Q)
    : result (list Q) :=
  if has_field vertex "scale_0" then
    let* s0 := field vertex "scale_0" in
    let* s1 := field vertex "scale_1" in
    let* s2 := field vertex "scale_2" in
    let* s01 := np_add (map np_exp s0) (map np_exp s1) in
    let* s012 := np_add s01 (map np_exp s2) in
    Ok (map (fun v => v / 3) s012)
  else Ok (map (fun v => v * 0.01) (ones_like xs)).

(** The body of the loop that builds the splat list. *)
Definition splat_at (xs ys zs rs gs bs os ss : list Q) (i : nat)
    : result GaussianSplat :=
  let* xi := py_index xs i in
  let* yi := py_index ys i in
  let* zi := py_index zs i in
  let* ri := py_index rs i in
  let* gi := py_index gs i in
  let* bi := py_index bs i in
  let* oi := py_index os i in
  let* si := py_index ss i in
  Ok (mkSplat xi yi zi ri gi bi oi si).

Definition load_ply (vertex : vertex_table) : result (list GaussianSplat) :=
  let* xs := field vertex "x" in
  let* ys := field vertex "y" in
  let* zs := field vertex "z" in
  let* rgb := decode_color vertex xs in
  let '(r0, g0, b0) := rgb in
  let rs := map (fun c => np_clip c 0 1) r0 in
  let gs := map (fun c => np_clip c 0 1) g0 in
  let bs := map (fun c => np_clip c 0 1) b0 in
  let* os := decode_opacity vertex xs in
  let* ss := decode_scale vertex xs in
  try_map (splat_at xs ys zs rs gs bs os ss) (seq 0 (length xs)).

End Decoder.

(** ** The decoder on arrays that hold NaN *)

(** The decoder above runs on tables of numbers.  A field of a PLY file may
    also hold NaN; the same code is read here on such tables.  Every
    arithmetic operation, [np.exp] and [np.clip] hand a NaN on. *)
Module WithNaN.

(** A NumPy float: a number or NaN. *)
Inductive npfloat : Type :=
| Number (q : Q)
| NaN.

(** A function of one number on a float. *)
Definition on_number (f : Q -> Q) (v : npfloat) : npfloat :=
  match v with
  | Number q => Number (f q)
  | NaN => NaN
  end.

Record GaussianSplat : Type := mkSplat {
  x : npfloat;
  y : npfloat;
  z : npfloat;
  r : npfloat;
  g : npfloat;
  b : npfloat;
  opacity : npfloat;
  scale : npfloat
}.

Abbreviation vertex_table := (gmap string (list npfloat)).

Definition has_field (vertex : vertex_table) (name : string) : bool :=
  match vertex !! name with
  | Some _ => true
  | None => false
  end.

Definition field (vertex : vertex_table) (name : string)
    : result (list npfloat) :=
  match vertex !! name with
  | Some col => Ok col
  | None => Raise ValueError
  end.

(** [np.clip(v, lo, hi)] on one element: NaN stays NaN. *)
Definition np_clip (v : npfloat) (lo hi : Q) : npfloat :=
  on_number (fun q => np_clip q lo hi) v.

Definition ones_like (a : list npfloat) : list npfloat :=
  repeat (Number 1) (length a).

(** [a + c] on one element. *)
Definition np_plus (a c : npfloat) : npfloat :=
  match a, c with
  | Number p, Number q => Number (p + q)
  | _, _ => NaN
  end.

Definition np_add (a c : list npfloat) : result (list npfloat) :=
  if Nat.eqb (length a) (length c)
  then Ok (map (fun p => np_plus (fst p) (snd p)) (combine a c))
  else Raise ValueError.

Section Decoder.

Variable np_exp : Q -> Q.

Definition sigmoid (v : npfloat) : npfloat :=
  on_number (fun q => 1 / (1 + np_exp (- q))) v.

Definition decode_color (vertex : vertex_table) (xs : list npfloat)
    : result (list npfloat * list npfloat * list npfloat) :=
  if has_field vertex "f_dc_0" then
    let* dc0 := field vertex "f_dc_0" in
    let* dc1 := field vertex "f_dc_1" in
    let* dc2 := field vertex "f_dc_2" in
    Ok (map (on_number (fun v => 0.5 + v * C0)) dc0,
        map (on_number (fun v => 0.5 + v * C0)) dc1,
        map (on_number (fun v => 0.5 + v * C0)) dc2)
  else if has_field vertex "red" then
    let* red := field vertex "red" in
    let* green := field vertex "green" in
    let* blue := field vertex "blue" in
    Ok (map (on_number (fun v => v / 255.0)) red,
        map (on_number (fun v => v / 255.0)) green,
        map (on_number (fun v => v / 255.0)) blue)
  else Ok (ones_like xs, ones_like xs, ones_like xs).

Definition decode_opacity (vertex : vertex_table) (xs : list npfloat)
    : result (list npfloat) :=
  if has_field vertex "opacity" then
    let* opacity_logit := field vertex "opacity" in
    Ok (map sigmoid opacity_logit)
  else Ok (ones_like xs).

Definition decode_scale (vertex : vertex_table) (xs : list npfloat)
    : result (list npfloat) :=
  if has_field vertex "scale_0" then
    let* s0 := field vertex "scale_0" in
    let* s1 := field vertex "scale_1" in
    let* s2 := field vertex "scale_2" in
    let* s01 := np_add (map (on_number np_exp) s0) (map (on_number np_exp) s1) in
    let* s012 := np_add s01 (map (on_number np_exp) s2) in
    Ok (map (on_number (fun v => v / 3)) s012)
  else Ok (map (on_number (fun v => v * 0.01)) (ones_like xs)).

Definition splat_at (xs ys zs rs gs bs os ss : list npfloat) (i : nat)
    : result GaussianSplat :=
  let* xi := py_index xs i in
  let* yi := py_index ys i in
  let* zi := py_index zs i in
  let* ri := py_index rs i in
  let* gi := py_index gs i in
  let* bi := py_index bs i in
  let* oi := py_index os i in
  let* si := py_index ss i in
  Ok (mkSplat xi yi zi ri gi bi oi si).

Definition load_ply (vertex : vertex_table) : result (list GaussianSplat) :=
  let* xs := field vertex "x" in
  let* ys := field vertex "y" in
  let* zs := field vertex "z" in
  let* rgb := decode_color vertex xs in
  let '(r0, g0, b0) := rgb in
  let rs := map (fun c => np_clip c 0 1) r0 in
  let gs := map (fun c => np_clip c 0 1) g0 in
  let bs := map (fun c => np_clip c 0 1) b0 in
  let* os := decode_opacity vertex xs in
  let* ss := decode_scale vertex xs in
  try_map (splat_at xs ys zs rs gs bs os ss) (seq 0 (length xs)).

End Decoder.

End WithNaN.

(** ** The pipeline *)

Section Pipeline.

Variable np_exp : Q -> Q.
Variable rng : Type.
Variable np_random_choice : sampler rng.

(** [convert_ply_to_datapack] up to the text handed to [generate_datapack]
    (which only writes files): load, normalize with the default centering,
    downsample with the default method when there are more splats than
    [max_particles], and generate the script in relative mode. *)
Definition convert_ply_to_datapack (vertex : vertex_table) (max_particles : Z)
    (target_size min_opacity : Q) (gen : rng) : result string * rng :=
  match (let* splats := load_ply np_exp vertex in
         normalize_splats splats target_size true) with
  | Raise e => (Raise e, gen)
  | Ok splats =>
    let '(selected, gen') :=
      if (max_particles <? Z.of_nat (length splats))%Z
      then downsample_splats rng np_random_choice splats max_particles
             "opacity" gen
      else (Ok splats, gen) in
    (let* splats := selected in
     Ok (generate_mcfunction splats true min_opacity), gen')
  end.

End Pipeline.

(** ** Names, paths and the files of a datapack *)

(** Text.  Python strings are modelled as strings of 8-bit characters and
    the two character functions below are those of Python on ASCII
    characters; names with other characters are outside the model. *)

(** [c.lower()] for one ASCII character. *)
Definition py_lower_char (c : ascii) : ascii :=
  let n := nat_of_ascii c in
  if (65 <=? n)%nat && (n <=? 90)%nat then ascii_of_nat (n + 32) else c.

(** [s.lower()]. *)
Fixpoint py_lower (s : string) : string :=
  match s with
  | EmptyString => EmptyString
  | String c s' => String (py_lower_char c) (py_lower s')
  end.

(** [c.isalnum()] for one ASCII character. *)
Definition py_isalnum (c : ascii) : bool :=
  let n := nat_of_ascii c in
  ((48 <=? n)%nat && (n <=? 57)%nat)
  || ((65 <=? n)%nat && (n <=? 90)%nat)
  || ((97 <=? n)%nat && (n <=? 122)%nat).

(** [c if c.isalnum() or c == "_" else "_"]. *)
Definition keep_or_underscore (c : ascii) : ascii :=
  if py_isalnum c || Ascii.eqb c "_" then c else "_"%char.

Fixpoint map_chars (f : ascii -> ascii) (s : string) : string :=
  match s with
  | EmptyString => EmptyString
  | String c s' => String (f c) (map_chars f s')
  end.

(** [safe_name] of [generate_datapack]. *)
Definition safe_name (name : string) : string :=
  map_chars keep_or_underscore (py_lower name).

(** A [Path], as the list of its components; [p / name]. *)
Definition path : Type := list string.

Definition path_join (p : path) (name : string) : path := p ++ [name].

Infix "</>" := path_join (at level 40, left associativity).

(** What a run does to the outside: text on standard output or standard
    error, directories made ([mkdir(parents=True, exist_ok=True)]) and files
    written ([write_text]), in the order of the calls.  Failures of the
    operating system are outside the model. *)
Inductive event : Type :=
| Out (text : string)
| Err (text : string)
| MkdirParents (p : path)
| WriteText (p : path) (content : string).

Definition newline : string := String "010" EmptyString.
Definition dquote : string := String "034" EmptyString.

(** The text of [pack.mcmeta]. *)
Definition pack_mcmeta_text (name : string) : string :=
  "{" +:+ newline
  +:+ "  " +:+ dquote +:+ "pack" +:+ dquote +:+ ": {" +:+ newline
  +:+ "    " +:+ dquote +:+ "pack_format" +:+ dquote +:+ ": 48," +:+ newline
  +:+ "    " +:+ dquote +:+ "description" +:+ dquote +:+ ": " +:+ dquote
  +:+ "3D Gaussian Splat: " +:+ name +:+ dquote +:+ newline
  +:+ "  }" +:+ newline
  +:+ "}" +:+ newline.

(** The text of [help.mcfunction]. *)
Definition help_text (safe : string) : string :=
  "tellraw @s {" +:+ dquote +:+ "text" +:+ dquote +:+ ":" +:+ dquote
  +:+ "Available splats: " +:+ safe +:+ dquote +:+ "," +:+ dquote
  +:+ "color" +:+ dquote +:+ ":" +:+ dquote +:+ "green" +:+ dquote +:+ "}"
  +:+ newline
  +:+ "tellraw @s {" +:+ dquote +:+ "text" +:+ dquote +:+ ":" +:+ dquote
  +:+ "Run: /function splats:" +:+ safe +:+ dquote +:+ "," +:+ dquote
  +:+ "color" +:+ dquote +:+ ":" +:+ dquote +:+ "gray" +:+ dquote +:+ "}".

(** [generate_datapack]: the directory it returns and what it does, in
    order. *)
Definition generate_datapack (name mcfunction_content : string)
    (output_dir : path) : path * list event :=
  let safe := safe_name name in
  let datapack_dir := output_dir </> ("splat_" +:+ safe) in
  let functions_dir := datapack_dir </> "data" </> "splats" </> "function" in
  let pack_mcmeta := datapack_dir </> "pack.mcmeta" in
  let mcfunction_file := functions_dir </> (safe +:+ ".mcfunction") in
  (datapack_dir,
   [ MkdirParents functions_dir;
     WriteText pack_mcmeta (pack_mcmeta_text name);
     WriteText mcfunction_file mcfunction_content;
     WriteText (functions_dir </> "help.mcfunction") (help_text safe) ]).

(** ** Commands *)

(** [str(n)] for an integer, and [f"{n:,}"] for a count. *)
Definition py_str_int (n : Z) : string :=
  (if (n <? 0)%Z then "-" else "") +:+ int_digits (Z.abs n).

Fixpoint group_thousands (rev_digits : list ascii) : list ascii :=
  match rev_digits with
  | d1 :: d2 :: d3 :: ((_ :: _) as more) =>
    d1 :: d2 :: d3 :: ","%char :: group_thousands more
  | _ => rev_digits
  end.

Definition format_grouped (n : nat) : string :=
  string_of_list_ascii
    (rev (group_thousands
            (rev (list_ascii_of_string
                    (NilZero.string_of_uint (Nat.to_uint n)))))).

(** [sum(l)], exact; binary64 rounds after each addition. *)
Definition py_sum (l : list Q) : Q := fold_left Qplus l 0.

(** A PLY file as [pathlib] and [plyfile] present it: the text of its path,
    its name, its stem, and its vertex table. *)
Record ply_file : Type := mkPly {
  ply_text : string;
  ply_name : string;
  ply_stem : string;
  ply_vertex : vertex_table
}.

Section Commands.

Variable np_exp : Q -> Q.
Variable rng : Type.
Variable np_random_choice : sampler rng.

(** [str] of a [Path], of a float and of an exception. *)
Variable path_text : path -> string.
Variable float_text : Q -> string.
Variable exn_text : exn -> string.

(** The state a command runs in: the events so far and the generator. *)
Record world : Type := mkWorld {
  events : list event;
  generator : rng
}.

(** A command: it changes the world and returns or raises. *)
Definition cmd (A : Type) : Type := world -> world * result A.

Definition ret {A : Type} (a : A) : cmd A := fun w => (w, Ok a).

Definition then_ {A B : Type} (m : cmd A) (k : A -> cmd B) : cmd B :=
  fun w =>
    match m w with
    | (w', Ok a) => k a w'
    | (w', Raise e) => (w', Raise e)
    end.

Notation "'do*' v ':=' m 'in' k" := (then_ m (fun v => k))
  (at level 10, v name, m at level 100, k at level 200, only parsing).
Notation "m ';;' k" := (then_ m (fun _ => k))
  (at level 100, k at level 200, right associativity, only parsing).

Definition emit (e : event) : cmd unit :=
  fun w => (mkWorld (events w ++ [e]) (generator w), Ok tt).

Definition emit_all (es : list event) : cmd unit :=
  fun w => (mkWorld (events w ++ es) (generator w), Ok tt).

(** [print] and [click.echo]. *)
Definition print (text : string) : cmd unit := emit (Out text).
Definition echo (text : string) : cmd unit := emit (Out text).
Definition echo_err (text : string) : cmd unit := emit (Err text).

Definition lift {A : Type} (r : result A) : cmd A := fun w => (w, r).

(** A computation that uses the generator. *)
Definition with_generator {A : Type} (f : rng -> result A * rng) : cmd A :=
  fun w => let '(r, g') := f (generator w) in (mkWorld (events w) g', r).

(** [try: m except Exception as e: handler(e)]. *)
Definition try_except {A : Type} (m : cmd A) (handler : exn -> cmd A) : cmd A :=
  fun w =>
    match m w with
    | (w', Ok a) => (w', Ok a)
    | (w', Raise e) => handler e w'
    end.

Definition count_text (n : nat) : string :=
  NilZero.string_of_uint (Nat.to_uint n).

(** [convert_ply_to_datapack], whole: with its progress messages and the
    call of [generate_datapack]. *)
Definition convert_ply_to_datapack_io (ply : ply_file) (output_dir : path)
    (max_particles : Z) (target_size min_opacity : Q) : cmd path :=
  print ("Loading " +:+ ply_text ply +:+ "...") ;;
  do* splats := lift (load_ply np_exp (ply_vertex ply)) in
  print ("  Loaded " +:+ count_text (length splats) +:+ " splats") ;;
  print ("Normalizing to " +:+ float_text target_size +:+ " blocks...") ;;
  do* splats := lift (normalize_splats splats target_size true) in
  do* splats :=
    (if (max_particles <? Z.of_nat (length splats))%Z then
       print ("Downsampling to " +:+ py_str_int max_particles
              +:+ " particles...") ;;
       with_generator
         (downsample_splats rng np_random_choice splats max_particles "opacity")
     else ret splats) in
  print "Generating mcfunction..." ;;
  let mcfunction := generate_mcfunction splats true min_opacity in
  let name := ply_stem ply in
  print ("Creating datapack '" +:+ name +:+ "'...") ;;
  let '(datapack_path, written) :=
    generate_datapack name mcfunction output_dir in
  emit_all written ;;
  print ("Done! Datapack at: " +:+ path_text datapack_path) ;;
  ret datapack_path.

Definition check_mark : string :=
  String "226" (String "156" (String "147" EmptyString)).

(** The [convert] command of the command line. *)
Definition convert (ply : ply_file) (output : path) (max_particles : Z)
    (size min_opacity : Q) : cmd unit :=
  emit (MkdirParents output) ;;
  do* datapack_path :=
    convert_ply_to_datapack_io ply output max_particles size min_opacity in
  echo (newline +:+ check_mark +:+ " Datapack created: "
        +:+ path_text datapack_path) ;;
  echo "  Copy to your world's datapacks/ folder" ;;
  echo ("  Then: /reload and /function splats:" +:+ py_lower (ply_stem ply)).

(** One of the three statistics lines of [info]. *)
Definition stats_text (d : nat) (l : list Q) : result string :=
  let* mn := py_min_list l in
  let* mx := py_max_list l in
  let* avg := py_div (py_sum l) (inject_Z (Z.of_nat (length l))) in
  Ok ("min=" +:+ format_fixed d mn +:+ ", max=" +:+ format_fixed d mx
      +:+ ", avg=" +:+ format_fixed d avg).

Definition bounds_text (l : list Q) : result string :=
  let* mn := py_min_list l in
  let* mx := py_max_list l in
  Ok ("[" +:+ format_fixed 3 mn +:+ ", " +:+ format_fixed 3 mx +:+ "]").

(** The [info] command of the command line. *)
Definition info (ply : ply_file) : cmd unit :=
  do* splats := lift (load_ply np_exp (ply_vertex ply)) in
  match splats with
  | [] => echo "No splats found in file."
  | _ :: _ =>
    let opacities := map opacity splats in
    let scales := map scale splats in
    echo ("File: " +:+ ply_text ply) ;;
    echo ("Splats: " +:+ format_grouped (length splats)) ;;
    do* t := lift (stats_text 3 opacities) in
    echo ("Opacity: " +:+ t) ;;
    do* t := lift (stats_text 6 scales) in
    echo ("Scale: " +:+ t) ;;
    let xs := map x splats in
    let ys := map y splats in
    let zs := map z splats in
    do* t := lift (bounds_text xs) in
    echo ("Bounds X: " +:+ t) ;;
    do* t := lift (bounds_text ys) in
    echo ("Bounds Y: " +:+ t) ;;
    do* t := lift (bounds_text zs) in
    echo ("Bounds Z: " +:+ t)
  end.

(** The loop of [batch] over the files found. *)
Fixpoint batch_loop (ply_files : list ply_file) (output : path)
    (max_particles : Z) : cmd unit :=
  match ply_files with
  | [] => ret tt
  | ply :: rest =>
    echo (newline +:+ "Processing " +:+ ply_name ply +:+ "...") ;;
    try_except
      (do* _ := convert_ply_to_datapack_io ply output max_particles 10.0 0.1 in
       ret tt)
      (fun e => echo_err ("  Error: " +:+ exn_text e)) ;;
    batch_loop rest output max_particles
  end.

(** The [batch] command of the command line; [ply_files] is what
    [splat_dir.glob("*.ply")] finds. *)
Definition batch (splat_dir : path) (ply_files : list ply_file)
    (output : path) (max_particles : Z) : cmd unit :=
  match ply_files with
  | [] => echo ("No PLY files found in " +:+ path_text splat_dir)
  | _ :: _ =>
    echo ("Found " +:+ count_text (length ply_files) +:+ " PLY files") ;;
    emit (MkdirParents output) ;;
    batch_loop ply_files output max_particles ;;
    echo (newline +:+ check_mark +:+ " Done! Datapacks in: "
          +:+ path_text output)
  end.

End Commands.

(** * Vocabulary of the specification *)

(** The clamp of the specification: [v] forced into the interval [[lo, hi]]. *)
Definition clamp (v lo hi : Q) : Q :=
  if Qlt_le_dec v lo then lo else if Qlt_le_dec hi v then hi else v.

(** Decimal digits. *)
Definition is_digit (c : ascii) : bool :=
  (48 <=? nat_of_ascii c)%nat && (nat_of_ascii c <=? 57)%nat.

Definition all_digits (s : string) : bool :=
  forallb is_digit (list_ascii_of_string s).

(** The number a string of decimal digits denotes. *)
Definition digit_value (c : ascii) : Z := (Z.of_nat (nat_of_ascii c) - 48)%Z.

Definition digits_value (s : string) : Z :=
  fold_left (fun acc c => (10 * acc + digit_value c)%Z)
            (list_ascii_of_string s) 0%Z.

(** The text [s] is the number [q] written with exactly [d] decimal digits:
    a minus sign exactly when [q] is negative, at least one integer digit, a
    point and [d] fraction digits, which together denote a multiple of
    [10^-d] at most half a unit in the last place away from [|q|]. *)
Definition fixed_numeral (d : nat) (q : Q) (s : string) : Prop :=
  exists sign ip fp : string,
    s = sign +:+ ip +:+ "." +:+ fp
    /\ ((sign = "-" /\ q < 0) \/ (sign = "" /\ 0 <= q))
    /\ ip <> ""
    /\ all_digits ip = true
    /\ all_digits fp = true
    /\ String.length fp = d
    /\ Qabs (Qabs q * inject_Z (10 ^ Z.of_nat d)
             - inject_Z (digits_value ip * 10 ^ Z.of_nat d + digits_value fp))
       <= 1 # 2.

(** [s.split("\n")]: the lines of a text. *)
Fixpoint split_lines (s : string) : list string :=
  match s with
  | EmptyString => [EmptyString]
  | String c s' =>
    if Ascii.eqb c "010" then EmptyString :: split_lines s'
    else match split_lines s' with
         | [] => [String c EmptyString]
         | l :: ls => String c l :: ls
         end
  end.

(** A text without a line break. *)
Definition no_newline (s : string) : bool :=
  forallb (fun c => negb (Ascii.eqb c "010")) (list_ascii_of_string s).

(** The command line as the specification's sentence lists its parts: the
    particle-type token, the parameter block, the position, three zero
    velocity components, a spread value of 1 and the force token. *)
Definition spec_command_line (relative : bool) (s : GaussianSplat) : string :=
  "particle dust"
    +:+ "{color:[" +:+ format_fixed 3 (clamp (r s) 0 1)
    +:+ "," +:+ format_fixed 3 (clamp (g s) 0 1)
    +:+ "," +:+ format_fixed 3 (clamp (b s) 0 1)
    +:+ "],scale:" +:+ format_fixed 2 (clamp (scale s * 50) 0.1 4.0) +:+ "}"
    +:+ " " +:+ format_pos relative s
    +:+ " 0 0 0"
    +:+ " 1"
    +:+ " force".

(** The bounding box of the specification: the least and the greatest value
    of an axis (0 on an empty axis, which the normalizer never looks at). *)
Definition lowest (l : list Q) : Q :=
  match l with
  | [] => 0
  | a :: rest => fold_left Qmin rest a
  end.

Definition highest (l : list Q) : Q :=
  match l with
  | [] => 0
  | a :: rest => fold_left Qmax rest a
  end.

(** [range = max - min], with 1 substituted when the range is exactly zero. *)
Definition spec_range (l : list Q) : Q :=
  let d := highest l - lowest l in
  if Qeq_dec d 0 then 1 else d.

(** [scale_factor = target_extent / max(range_x, range_y, range_z)]. *)
Definition spec_scale_factor (target_extent : Q) (splats : list GaussianSplat) : Q :=
  target_extent
  / Qmax (Qmax (spec_range (map x splats)) (spec_range (map y splats)))
         (spec_range (map z splats)).

(** The axis midpoint when centering is enabled, 0 otherwise. *)
Definition spec_center (center : bool) (l : list Q) : Q :=
  if center then (lowest l + highest l) / 2 else 0.

(** What the specification says of the normalized image [o] of a splat [s]
    of the cloud [splats]. *)
Definition normalized_as_specified (target_extent : Q) (center : bool)
    (splats : list GaussianSplat) (s o : GaussianSplat) : Prop :=
  let sf := spec_scale_factor target_extent splats in
  x o == (x s - spec_center center (map x splats)) * sf
  /\ y o == (y s - spec_center center (map y splats)) * sf
  /\ z o == (z s - spec_center center (map z splats)) * sf
  /\ scale o == scale s * sf
  /\ r o = r s /\ g o = g s /\ b o = b s /\ opacity o = opacity s.

(** Two splats with the same numeric values. *)
Definition splat_equiv (s t : GaussianSplat) : Prop :=
  x s == x t /\ y s == y t /\ z s == z t
  /\ r s == r t /\ g s == g t /\ b s == b t
  /\ opacity s == opacity t /\ scale s == scale t.

(** The rank order of the by-opacity policy, on tagged elements and on
    positions of the input. *)

(** Elements tagged with their position in the input. *)
Definition tagged_key {A : Type} (key : A -> Q) (p : nat * A) : Q :=
  key (snd p).

(** The order the sort realises on tagged elements: greater key first, and
    among equal keys the smaller input position first. *)
Definition tagged_before {A : Type} (key : A -> Q) (p q : nat * A) : Prop :=
  key (snd q) < key (snd p)
  \/ (key (snd p) == key (snd q) /\ (fst p < fst q)%nat).

(** [enumerate(l, n)]: every element with its position. *)
Fixpoint tag_from {A : Type} (n : nat) (l : list A) : list (nat * A) :=
  match l with
  | [] => []
  | a :: t => (n, a) :: tag_from (S n) t
  end.

(** Position [i] ranks before position [j]: its splat has the greater
    opacity, or the same opacity and [i] comes first in the input. *)
Definition ranks_before (splats : list GaussianSplat) (i j : nat) : Prop :=
  exists si sj : GaussianSplat,
    nth_error splats i = Some si
    /\ nth_error splats j = Some sj
    /\ (opacity sj < opacity si
        \/ (opacity si == opacity sj /\ (i < j)%nat)).

(** The post-decode invariant of the specification. *)
Definition splat_in_range (s : GaussianSplat) : Prop :=
  0 <= r s <= 1 /\ 0 <= g s <= 1 /\ 0 <= b s <= 1
  /\ 0 <= opacity s <= 1 /\ 0 <= scale s.

(** A rational stand-in for [np.exp], to run the decoder on examples: the
    first-order approximation [1 + v] for [v >= 0] and [1 / (1 - v)] below. *)
Definition exp_approx (v : Q) : Q :=
  if Qle_bool 0 v then 1 + v else 1 / (1 - v).

(** A deterministic stand-in for the sampler, to run the selector on
    examples: it draws the first [size] indices and leaves the state as is. *)
Definition first_indices : sampler unit :=
  fun (n : nat) (size : Z) (replace : bool) (gen : unit) =>
    (Ok (seq 0 (Z.to_nat size)), gen).

(** A table as [plyfile] builds it: [n] rows in every column, the three
    position fields, and each optional field group complete when its first
    field is there. *)
Definition table_well_formed (vertex : vertex_table) (n : nat) : Prop :=
  (forall name col, vertex !! name = Some col -> length col = n)
  /\ is_Some (vertex !! "x") /\ is_Some (vertex !! "y")
  /\ is_Some (vertex !! "z")
  /\ (is_Some (vertex !! "f_dc_0") ->
      is_Some (vertex !! "f_dc_1") /\ is_Some (vertex !! "f_dc_2"))
  /\ (is_Some (vertex !! "red") ->
      is_Some (vertex !! "green") /\ is_Some (vertex !! "blue"))
  /\ (is_Some (vertex !! "scale_0") ->
      is_Some (vertex !! "scale_1") /\ is_Some (vertex !! "scale_2")).

(** An example table of two points without colour fields, whose opacities
    decode to 0.9 and 0.05 under [exp_approx]. *)
Definition table_two : vertex_table :=
  <["x" := [0; 1]]> (<["y" := [0; 2]]> (<["z" := [0; 4]]>
  (<["opacity" := [8; -18]]> ∅))).

(** An example table: spherical-harmonic colours beside 8-bit colours, with
    opacity and scale fields. *)
Definition table_sh : vertex_table :=
  <["x" := [1; 2]]> (<["y" := [0; 5]]> (<["z" := [-1; 3]]>
  (<["f_dc_0" := [0; 10]]> (<["f_dc_1" := [1; -10]]> (<["f_dc_2" := [-1; 0]]>
  (<["red" := [255; 255]]> (<["green" := [0; 0]]> (<["blue" := [0; 0]]>
  (<["opacity" := [0; -3]]>
  (<["scale_0" := [0; 1]]> (<["scale_1" := [0; -1]]> (<["scale_2" := [0; 2]]>
  ∅)))))))))))).

(** What the decoder makes of [table_sh], with [exp_approx] for [np.exp]. *)
Definition decoded_sh : list GaussianSplat :=
  [ mkSplat 1 0 (-1) 0.500000000000000000 0.782094791773878140
      0.217905208226121860 (1 # 2) (3 # 3);
    mkSplat 2 5 3 1 0 0.500000000000000000 (1 # 5) (11 # 6) ].

(** Example splats. *)
Definition splat_a : GaussianSplat :=
  mkSplat 1.23456 (-0.0004) 0.0625 0.5 2 (-1) 0.9 0.01.

Definition splat_b : GaussianSplat :=
  mkSplat 3 2 (-1) 0.25 0.5 0.75 0.05 0.02.

Definition splat_c : GaussianSplat :=
  mkSplat (-2) 0 4 0.1 0.2 0.3 0.9 0.5.

(** ** Vocabulary of the decoder with NaN *)














(** ** Vocabulary of the further properties *)
(** The extent of an axis: greatest minus least value. *)
Definition extent (l : list Q) : Q := highest l - lowest l.

(** The largest of the three ranges the scale factor divides by. *)
Definition spec_max_range (splats : list GaussianSplat) : Q :=
  Qmax (Qmax (spec_range (map x splats)) (spec_range (map y splats)))
       (spec_range (map z splats)).

(** An unsigned number with exactly [d] decimal digits whose value, counted
    in units of the last digit, lies between [lo] and [hi]. *)
Definition numeral_between (d : nat) (lo hi : Z) (s : string) : Prop :=
  exists ip fp : string,
    s = ip +:+ "." +:+ fp
    /\ ip <> ""
    /\ all_digits ip = true
    /\ all_digits fp = true
    /\ String.length fp = d
    /\ (lo <= digits_value ip * 10 ^ Z.of_nat d + digits_value fp <= hi)%Z.

(** The product [scale * 50] is rounded to binary64 before it is clamped
    and written; for a clamped value, at most 4, that moves it by less than
    [10^-15]. *)
Definition binary64_slack : Q := 1 # 10 ^ 15.

(** The text [s] is an unsigned number with exactly [d] decimal digits: at
    least one integer digit, a point and [d] fraction digits, which together
    denote a multiple of [10^-d] at most [tol] away from [q]. *)
Definition unsigned_numeral_near (d : nat) (q tol : Q) (s : string) : Prop :=
  exists ip fp : string,
    s = ip +:+ "." +:+ fp
    /\ ip <> ""
    /\ all_digits ip = true
    /\ all_digits fp = true
    /\ String.length fp = d
    /\ Qabs (inject_Z (digits_value ip * 10 ^ Z.of_nat d + digits_value fp)
             / inject_Z (10 ^ Z.of_nat d) - q)
       <= tol.

(** The text [s] is the coordinate [q] written with 3 decimal digits.  A
    coordinate that is zero is written [0.000], or [-0.000] when it is the
    negative zero of binary64. *)
Definition coordinate_numeral (q : Q) (s : string) : Prop :=
  (~ q == 0 -> fixed_numeral 3 q s)
  /\ (q == 0 -> s = "0.000" \/ s = "-0.000").

(** An example table with 8-bit colours and no other optional field. *)
Definition table_rgb : vertex_table :=
  <["x" := [0; 1]]> (<["y" := [0; 2]]> (<["z" := [0; 4]]>
  (<["red" := [255; 0]]> (<["green" := [51; 300]]> (<["blue" := [0; 102]]>
  ∅))))).

Definition decoded_rgb : list GaussianSplat :=
  [ mkSplat 0 0 0 (2550 # 2550) (510 # 2550) (0 # 2550) 1 (1 # 100);
    mkSplat 1 2 4 (0 # 2550) 1 (1020 # 2550) 1 (1 # 100) ].

(** An example table with positions only. *)
Definition table_bare : vertex_table :=
  <["x" := [3; 1]]> (<["y" := [0; 2]]> (<["z" := [-1; 4]]> ∅)).

Definition decoded_bare : list GaussianSplat :=
  [ mkSplat 3 0 (-1) 1 1 1 1 (1 # 100); mkSplat 1 2 4 1 1 1 1 (1 # 100) ].

(** Two example splats in a plane, half a unit apart. *)
Definition flat_a : GaussianSplat := mkSplat 0 0 7 1 1 1 1 0.01.
Definition flat_b : GaussianSplat := mkSplat 0.5 0.25 7 1 1 1 1 0.01.

(** Text made of ASCII characters only. *)
Definition is_ascii (c : ascii) : bool := (nat_of_ascii c <? 128)%nat.

Definition ascii_only (s : string) : Prop :=
  forallb is_ascii (list_ascii_of_string s) = true.

(** The characters of a sanitized name: lower-case letters, digits and the
    underscore. *)
Definition is_safe_char (c : ascii) : bool :=
  let n := nat_of_ascii c in
  ((48 <=? n)%nat && (n <=? 57)%nat)
  || ((97 <=? n)%nat && (n <=? 122)%nat)
  || Ascii.eqb c "_".

Definition safe_text (s : string) : Prop :=
  forallb is_safe_char (list_ascii_of_string s) = true.

(** The content of the file at [p] after the events [es]: what the last
    [write_text] to [p] wrote. *)
Fixpoint file_content (es : list event) (p : path) : option string :=
  match es with
  | [] => None
  | e :: es' =>
    match file_content es' p with
    | Some c => Some c
    | None =>
      match e with
      | WriteText q c => if bool_decide (q = p) then Some c else None
      | _ => None
      end
    end
  end.

(** The path a file-system call is made on, when the event is such a call.
    [mkdir(parents=True)] on a path also makes the missing ancestors of the
    path. *)
Definition path_of (e : event) : option path :=
  match e with
  | MkdirParents p => Some p
  | WriteText p _ => Some p
  | _ => None
  end.

(** [p] is [dir] or lies below it. *)
Definition below (dir p : path) : Prop := exists rest, p = dir ++ rest.

(** The directory a path lies in. *)
Definition parent (p : path) : path := removelast p.

(** The events of a run that touch the file system. *)
Definition file_events (es : list event) : list event :=
  List.filter (fun e => match path_of e with Some _ => true | None => false end)
    es.

(** The file of the script of the datapack of [name] in [output_dir]. *)
Definition script_file (output_dir : path) (name : string) : path :=
  output_dir </> ("splat_" +:+ safe_name name) </> "data" </> "splats"
  </> "function" </> (safe_name name +:+ ".mcfunction").

(** Example files: a scene with the two-splat table, and a file whose
    vertex element has no [y] and [z] fields. *)
Definition scene_file : ply_file :=
  mkPly "in/My Scene.ply" "My Scene.ply" "My Scene" table_two.

Definition broken_file : ply_file :=
  mkPly "in/broken.ply" "broken.ply" "broken" (<["x" := [1]]> ∅).

(** Example renderings of paths and exceptions as text. *)
Definition slash_text (p : path) : string := String.concat "/" p.

Definition exn_name (e : exn) : string :=
  match e with
  | ValueError => "ValueError"
  | IndexError => "IndexError"
  | ZeroDivisionError => "ZeroDivisionError"
  end.

(** * Properties *)

(** ** Comparisons, [min], [max] and clamping *)

Lemma py_lt_true (a c : Q) : py_lt a c = true <-> a < c.
Proof.
  unfold py_lt. rewrite negb_true_iff. split.
  - intros H. apply Qnot_le_lt. intros Hle.
    apply Qle_bool_iff in Hle. congruence.
  - intros H. destruct (Qle_bool c a) eqn:E; [|reflexivity].
    apply Qle_bool_iff in E. lra.
Qed.

Lemma py_lt_false (a c : Q) : py_lt a c = false <-> c <= a.
Proof.
  unfold py_lt. rewrite negb_false_iff. apply Qle_bool_iff.
Qed.

(** Case analysis on a comparison of the program. *)
Ltac case_lt a c :=
  let E := fresh "E" in
  destruct (py_lt a c) eqn:E;
  [apply py_lt_true in E | apply py_lt_false in E].

Lemma clamp_bounds (v lo hi : Q) : lo <= hi -> lo <= clamp v lo hi <= hi.
Proof.
  intros H. unfold clamp.
  destruct (Qlt_le_dec v lo); [lra|].
  destruct (Qlt_le_dec hi v); lra.
Qed.

Lemma py_max_min_clamp (lo hi v : Q) :
  lo <= hi -> py_max lo (py_min hi v) == clamp v lo hi.
Proof.
  intros H. unfold py_max, py_min, clamp.
  case_lt v hi; [case_lt lo v | case_lt lo hi];
    destruct (Qlt_le_dec v lo); try destruct (Qlt_le_dec hi v); lra.
Qed.

Lemma np_clip_clamp (v lo hi : Q) : lo <= hi -> np_clip v lo hi == clamp v lo hi.
Proof.
  intros H. unfold np_clip, clamp.
  case_lt v lo; [case_lt hi lo | case_lt hi v];
    destruct (Qlt_le_dec v lo); try destruct (Qlt_le_dec hi v); lra.
Qed.

Lemma clamp_color_clamp (c : Q) : clamp_color c == clamp c 0 1.
Proof. apply py_max_min_clamp. lra. Qed.

(** ** The decoder *)

Lemma try_map_seq_nth {B : Type} (f : nat -> result B) (a n : nat) (out : list B) :
  try_map f (seq a n) = Ok out ->
  length out = n
  /\ forall i v, nth_error out i = Some v -> f (a + i)%nat = Ok v.
Proof.
  revert a out. induction n as [|n IH]; intros a out; simpl.
  - intros H. inversion H; subst. split; [reflexivity|].
    intros i v Hi. destruct i; discriminate.
  - destruct (f a) as [v0|e] eqn:Ea; simpl; [|discriminate].
    destruct (try_map f (seq (S a) n)) as [vs|e] eqn:Em; simpl; [|discriminate].
    intros H. inversion H; subst. destruct (IH _ _ Em) as [Hlen Hnth].
    split; [simpl; now rewrite Hlen|].
    intros [|i] v Hi; simpl in Hi.
    + inversion Hi; subst. now rewrite Nat.add_0_r.
    + replace (a + S i)%nat with (S a + i)%nat by lia. now apply Hnth.
Qed.

Lemma py_index_ok {B : Type} (l : list B) (i : nat) (v : B) :
  py_index l i = Ok v <-> nth_error l i = Some v.
Proof.
  unfold py_index. destruct (nth_error l i); split; intros H;
    inversion H; subst; reflexivity.
Qed.

Lemma bind_ok {B C : Type} (m : result B) (k : B -> result C) (c : C) :
  bind m k = Ok c -> exists v, m = Ok v /\ k v = Ok c.
Proof. destruct m as [v|e]; simpl; [eauto | discriminate]. Qed.

(** Undo one [let*] of a successful run. *)
Ltac bind_inv H :=
  let v := fresh "v" in
  let Hv := fresh "Hv" in
  apply bind_ok in H as (v & Hv & H).

Lemma splat_at_ok (xs ys zs rs gs bs os ss : list Q) (i : nat) (s : GaussianSplat) :
  splat_at xs ys zs rs gs bs os ss i = Ok s ->
  nth_error xs i = Some (x s) /\ nth_error ys i = Some (y s)
  /\ nth_error zs i = Some (z s)
  /\ nth_error rs i = Some (r s) /\ nth_error gs i = Some (g s)
  /\ nth_error bs i = Some (b s)
  /\ nth_error os i = Some (opacity s) /\ nth_error ss i = Some (scale s).
Proof.
  unfold splat_at. intros H. repeat bind_inv H.
  inversion H; subst; simpl.
  repeat split; now apply py_index_ok.
Qed.

Lemma field_ok (vertex : vertex_table) (name : string) (col : list Q) :
  field vertex name = Ok col <-> vertex !! name = Some col.
Proof.
  unfold field. destruct (vertex !! name); split; intros H;
    inversion H; subst; reflexivity.
Qed.

Lemma has_field_true (vertex : vertex_table) (name : string) :
  has_field vertex name = true <-> is_Some (vertex !! name).
Proof.
  unfold has_field. destruct (vertex !! name); split; intros H;
    try discriminate; eauto. now destruct H.
Qed.


Lemma ones_like_In (a : list Q) (v : Q) : In v (ones_like a) -> v = 1.
Proof. unfold ones_like. apply repeat_spec. Qed.


Section DecoderProperties.

Variable np_exp : Q -> Q.
Hypothesis np_exp_nonneg : forall v, 0 <= np_exp v.





End DecoderProperties.

Lemma load_ply_inv (np_exp : Q -> Q) (vertex : vertex_table)
    (splats : list GaussianSplat) :
  load_ply np_exp vertex = Ok splats ->
  exists xs ys zs r0 g0 b0 os ss : list Q,
    vertex !! "x" = Some xs /\ vertex !! "y" = Some ys
    /\ vertex !! "z" = Some zs
    /\ decode_color vertex xs = Ok (r0, g0, b0)
    /\ decode_opacity np_exp vertex xs = Ok os
    /\ decode_scale np_exp vertex xs = Ok ss
    /\ length splats = length xs
    /\ forall i s, nth_error splats i = Some s ->
         splat_at xs ys zs (map (fun c => np_clip c 0 1) r0)
           (map (fun c => np_clip c 0 1) g0)
           (map (fun c => np_clip c 0 1) b0) os ss i = Ok s.
Proof.
  unfold load_ply. intros H.
  apply bind_ok in H as (xs & Hx & H). apply bind_ok in H as (ys & Hy & H).
  apply bind_ok in H as (zs & Hz & H).
  apply bind_ok in H as ([[r0 g0] b0] & Hc & H).
  apply bind_ok in H as (os & Ho & H). apply bind_ok in H as (ss & Hs & H).
  apply try_map_seq_nth in H as [Hlen Hnth].
  exists xs, ys, zs, r0, g0, b0, os, ss.
  repeat (split; [first [now apply field_ok | assumption]|]).
  exact Hnth.
Qed.

Lemma decode_color_sh (vertex : vertex_table) (xs dc0 dc1 dc2 : list Q) :
  vertex !! "f_dc_0" = Some dc0 -> vertex !! "f_dc_1" = Some dc1 ->
  vertex !! "f_dc_2" = Some dc2 ->
  decode_color vertex xs
  = Ok (map (fun v => 0.5 + v * C0) dc0,
        map (fun v => 0.5 + v * C0) dc1,
        map (fun v => 0.5 + v * C0) dc2).
Proof.
  intros H0 H1 H2. unfold decode_color, has_field, field.
  now rewrite H0, H1, H2.
Qed.



(** ** The decoder on tables with NaN *)






Section DecoderWithNaN.

Variable np_exp : Q -> Q.








End DecoderWithNaN.










Section DecoderRangeWithNaN.

Variable np_exp : Q -> Q.
Hypothesis np_exp_nonneg : forall v, 0 <= np_exp v.




End DecoderRangeWithNaN.




Lemma nth_error_map_inv {B C : Type} (f : B -> C) (l : list B) (i : nat) (c : C) :
  nth_error (map f l) i = Some c ->
  exists v, nth_error l i = Some v /\ c = f v.
Proof.
  rewrite nth_error_map. destruct (nth_error l i) as [v|]; simpl;
    intros H; inversion H; subst. eauto.
Qed.

Lemma sh_dc_zero (d : Q) :
  d == 0 -> clamp (0.5 + d * 0.28209479177387814) 0 1 == 0.5.
Proof.
  intros H. unfold clamp.
  destruct (Qlt_le_dec (0.5 + d * 0.28209479177387814) 0); [lra|].
  destruct (Qlt_le_dec 1 (0.5 + d * 0.28209479177387814)); lra.
Qed.

(** C5: when the table has the spherical-harmonic DC fields, every decoded
    colour channel is [clamp(0.5 + DC * 0.28209479177387814, 0, 1)] of the DC
    value in the same row, also when the table has 8-bit colour fields as
    well; a DC value of 0 decodes to 0.5. *)
Theorem sh_dc_color (np_exp : Q -> Q) (vertex : vertex_table)
    (dc0 dc1 dc2 : list Q) (splats : list GaussianSplat)
    (i : nat) (s : GaussianSplat) :
  vertex !! "f_dc_0" = Some dc0 ->
  vertex !! "f_dc_1" = Some dc1 ->
  vertex !! "f_dc_2" = Some dc2 ->
  load_ply np_exp vertex = Ok splats ->
  nth_error splats i = Some s ->
  exists d0 d1 d2 : Q,
    nth_error dc0 i = Some d0 /\ nth_error dc1 i = Some d1
    /\ nth_error dc2 i = Some d2
    /\ r s == clamp (0.5 + d0 * 0.28209479177387814) 0 1
    /\ g s == clamp (0.5 + d1 * 0.28209479177387814) 0 1
    /\ b s == clamp (0.5 + d2 * 0.28209479177387814) 0 1
    /\ (d0 == 0 -> r s == 0.5)
    /\ (d1 == 0 -> g s == 0.5)
    /\ (d2 == 0 -> b s == 0.5).
Proof.
  intros H0 H1 H2 Hrun Hi.
  apply load_ply_inv in Hrun
    as (xs & ys & zs & r0 & g0 & b0 & os & ss & _ & _ & _ & Hc & _ & _ & _ & Hnth).
  rewrite (decode_color_sh vertex xs dc0 dc1 dc2 H0 H1 H2) in Hc.
  inversion Hc; subst r0 g0 b0. clear Hc.
  apply Hnth, splat_at_ok in Hi as (_ & _ & _ & Hr & Hg & Hb & _).
  apply nth_error_map_inv in Hr as (cr & Hr & Er).
  apply nth_error_map_inv in Hr as (d0 & Hd0 & ->).
  apply nth_error_map_inv in Hg as (cg & Hg & Eg).
  apply nth_error_map_inv in Hg as (d1 & Hd1 & ->).
  apply nth_error_map_inv in Hb as (cb & Hb & Eb).
  apply nth_error_map_inv in Hb as (d2 & Hd2 & ->).
  exists d0, d1, d2. rewrite Er, Eg, Eb, !np_clip_clamp by lra.
  unfold C0.
  repeat (split; [first [assumption | reflexivity]|]).
  repeat split; apply sh_dc_zero.
Qed.

(** C5 on the first row of the example table, whose first DC value is 0. *)
Lemma sh_dc_color_witness :
  (table_sh !! "f_dc_0" = Some [0; 10]
   /\ table_sh !! "f_dc_1" = Some [1; -10]
   /\ table_sh !! "f_dc_2" = Some [-1; 0]
   /\ load_ply exp_approx table_sh = Ok decoded_sh
   /\ nth_error decoded_sh 0
      = Some (mkSplat 1 0 (-1) 0.500000000000000000 0.782094791773878140
                0.217905208226121860 (1 # 2) (3 # 3)))
  /\ exists d0 d1 d2 : Q,
       nth_error [0; 10] 0 = Some d0 /\ nth_error [1; -10] 0 = Some d1
       /\ nth_error [-1; 0] 0 = Some d2
       /\ 0.500000000000000000 == clamp (0.5 + d0 * 0.28209479177387814) 0 1
       /\ 0.782094791773878140 == clamp (0.5 + d1 * 0.28209479177387814) 0 1
       /\ 0.217905208226121860 == clamp (0.5 + d2 * 0.28209479177387814) 0 1
       /\ (d0 == 0 -> 0.500000000000000000 == 0.5)
       /\ (d1 == 0 -> 0.782094791773878140 == 0.5)
       /\ (d2 == 0 -> 0.217905208226121860 == 0.5).
Proof.
  assert (H0 : table_sh !! "f_dc_0" = Some [0; 10]) by reflexivity.
  assert (H1 : table_sh !! "f_dc_1" = Some [1; -10]) by reflexivity.
  assert (H2 : table_sh !! "f_dc_2" = Some [-1; 0]) by reflexivity.
  assert (Hrun : load_ply exp_approx table_sh = Ok decoded_sh)
    by (vm_compute; reflexivity).
  split; [repeat split; assumption || reflexivity|].
  exact (sh_dc_color exp_approx table_sh [0; 10] [1; -10] [-1; 0] _ 0%nat _
           H0 H1 H2 Hrun eq_refl).
Defined.

(** ** The decoder on well-formed tables *)

Lemma try_map_total {A B : Type} (f : A -> result B) (l : list A) :
  (forall a, In a l -> exists v, f a = Ok v) ->
  exists out, try_map f l = Ok out.
Proof.
  induction l as [|a l IH]; intros H; simpl; [eauto|].
  destruct (H a (or_introl eq_refl)) as [v ->].
  destruct IH as [out ->]; [intros a' Ha'; apply H; now right|].
  simpl. eauto.
Qed.

Lemma py_index_total {B : Type} (l : list B) (i : nat) :
  (i < length l)%nat -> exists v, py_index l i = Ok v.
Proof.
  intros H. unfold py_index.
  destruct (nth_error l i) eqn:E; [eauto|].
  apply nth_error_None in E. lia.
Qed.

Lemma splat_at_total (xs ys zs rs gs bs os ss : list Q) (n i : nat) :
  length xs = n -> length ys = n -> length zs = n -> length rs = n ->
  length gs = n -> length bs = n -> length os = n -> length ss = n ->
  (i < n)%nat ->
  exists s, splat_at xs ys zs rs gs bs os ss i = Ok s.
Proof.
  intros Hx Hy Hz Hr Hg Hb Ho Hs Hi. unfold splat_at.
  destruct (py_index_total xs i) as [? ->]; [lia|].
  destruct (py_index_total ys i) as [? ->]; [lia|].
  destruct (py_index_total zs i) as [? ->]; [lia|].
  destruct (py_index_total rs i) as [? ->]; [lia|].
  destruct (py_index_total gs i) as [? ->]; [lia|].
  destruct (py_index_total bs i) as [? ->]; [lia|].
  destruct (py_index_total os i) as [? ->]; [lia|].
  destruct (py_index_total ss i) as [? ->]; [lia|].
  simpl. eauto.
Qed.

Lemma np_add_total (a c : list Q) :
  length a = length c ->
  exists s, np_add a c = Ok s /\ length s = length a.
Proof.
  intros H. unfold np_add. rewrite (proj2 (Nat.eqb_eq _ _) H).
  eexists. split; [reflexivity|].
  rewrite length_map, length_combine. lia.
Qed.

Lemma ones_like_length (a : list Q) : length (ones_like a) = length a.
Proof. unfold ones_like. apply repeat_length. Qed.

Section DecoderTotal.

Variable np_exp : Q -> Q.
Variable vertex : vertex_table.
Variable n : nat.
Hypothesis Hwf : table_well_formed vertex n.

Lemma decode_color_total (xs : list Q) :
  length xs = n ->
  exists r0 g0 b0,
    decode_color vertex xs = Ok (r0, g0, b0)
    /\ length r0 = n /\ length g0 = n /\ length b0 = n.
Proof using Hwf.
  destruct Hwf as (Hlen & _ & _ & _ & Hdc & Hrgb & _).
  intros Hxs. unfold decode_color, has_field, field.
  destruct (vertex !! "f_dc_0") as [dc0|] eqn:E0.
  - destruct Hdc as [[dc1 E1] [dc2 E2]]; [eauto|]. rewrite E1, E2. simpl.
    eexists _, _, _. split; [reflexivity|].
    rewrite !length_map. repeat split; eauto.
  - destruct (vertex !! "red") as [red|] eqn:Er.
    + destruct Hrgb as [[green Eg] [blue Eb]]; [eauto|]. rewrite Eg, Eb. simpl.
      eexists _, _, _. split; [reflexivity|].
      rewrite !length_map. repeat split; eauto.
    + eexists _, _, _. split; [reflexivity|].
      rewrite ones_like_length. repeat split; exact Hxs.
Qed.

Lemma decode_opacity_total (xs : list Q) :
  length xs = n ->
  exists os, decode_opacity np_exp vertex xs = Ok os /\ length os = n.
Proof using Hwf.
  destruct Hwf as (Hlen & _). intros Hxs.
  unfold decode_opacity, has_field, field.
  destruct (vertex !! "opacity") as [col|] eqn:E; simpl.
  - eexists. split; [reflexivity|]. rewrite length_map. eauto.
  - eexists. split; [reflexivity|]. now rewrite ones_like_length.
Qed.

Lemma decode_scale_total (xs : list Q) :
  length xs = n ->
  exists ss, decode_scale np_exp vertex xs = Ok ss /\ length ss = n.
Proof using Hwf.
  destruct Hwf as (Hlen & _ & _ & _ & _ & _ & Hsc). intros Hxs.
  unfold decode_scale, has_field, field.
  destruct (vertex !! "scale_0") as [s0|] eqn:E0.
  - destruct Hsc as [[s1 E1] [s2 E2]]; [eauto|]. rewrite E1, E2. simpl.
    pose proof (Hlen _ _ E0) as L0. pose proof (Hlen _ _ E1) as L1.
    pose proof (Hlen _ _ E2) as L2.
    destruct (np_add_total (map np_exp s0) (map np_exp s1)) as (s01 & -> & L01);
      [rewrite !length_map; lia|]. simpl.
    destruct (np_add_total s01 (map np_exp s2)) as (s012 & -> & L012);
      [rewrite L01, !length_map; lia|]. simpl.
    eexists. split; [reflexivity|].
    rewrite length_map, L012, L01, length_map. exact L0.
  - eexists. split; [reflexivity|].
    now rewrite length_map, ones_like_length.
Qed.

(** On a well-formed table the decoder does not fail: it returns one splat
    per row, in row order, with the row's position. *)
Lemma load_ply_total :
  exists splats,
    load_ply np_exp vertex = Ok splats
    /\ length splats = n
    /\ forall i s, nth_error splats i = Some s ->
         (vertex !! "x") ≫= (fun col => nth_error col i) = Some (x s)
         /\ (vertex !! "y") ≫= (fun col => nth_error col i) = Some (y s)
         /\ (vertex !! "z") ≫= (fun col => nth_error col i) = Some (z s).
Proof using Hwf.
  pose proof Hwf as (Hlen & [xs Ex] & [ys Ey] & [zs Ez] & _).
  pose proof (Hlen _ _ Ex) as Lx. pose proof (Hlen _ _ Ey) as Ly.
  pose proof (Hlen _ _ Ez) as Lz.
  destruct (decode_color_total xs Lx) as (r0 & g0 & b0 & Hc & Lr & Lg & Lb).
  destruct (decode_opacity_total xs Lx) as (os & Ho & Lo).
  destruct (decode_scale_total xs Lx) as (ss & Hs & Ls).
  destruct (try_map_total
              (splat_at xs ys zs (map (fun c => np_clip c 0 1) r0)
                 (map (fun c => np_clip c 0 1) g0)
                 (map (fun c => np_clip c 0 1) b0) os ss) (seq 0 (length xs)))
    as [splats Hrun].
  { intros i Hi. apply in_seq in Hi.
    apply (splat_at_total _ _ _ _ _ _ _ _ n); rewrite ?length_map; (assumption || lia). }
  assert (Hload : load_ply np_exp vertex = Ok splats).
  { unfold load_ply, field. rewrite Ex, Ey, Ez. cbn [bind].
    rewrite Hc. cbn [bind]. rewrite Ho, Hs. cbn [bind]. exact Hrun. }
  exists splats. split; [exact Hload|].
  apply try_map_seq_nth in Hrun as [Hl Hnth].
  split; [lia|].
  intros i s Hi. apply Hnth, splat_at_ok in Hi as (Hx & Hy & Hz & _).
  rewrite Ex, Ey, Ez. simpl. auto.
Qed.

End DecoderTotal.

(** ** The bounding box *)

Lemma py_min_Qmin (a c : Q) : py_min a c == Qmin a c.
Proof.
  unfold py_min. case_lt c a.
  - rewrite Q.min_r; lra.
  - rewrite Q.min_l; lra.
Qed.

Lemma py_max_Qmax (a c : Q) : py_max a c == Qmax a c.
Proof.
  unfold py_max. case_lt a c.
  - rewrite Q.max_r; lra.
  - rewrite Q.max_l; lra.
Qed.

Lemma fold_py_min (l : list Q) (a a' : Q) :
  a == a' -> fold_left py_min l a == fold_left Qmin l a'.
Proof.
  revert a a'. induction l as [|v l IH]; intros a a' H; simpl; [exact H|].
  apply IH. rewrite py_min_Qmin. now rewrite H.
Qed.

Lemma fold_py_max (l : list Q) (a a' : Q) :
  a == a' -> fold_left py_max l a == fold_left Qmax l a'.
Proof.
  revert a a'. induction l as [|v l IH]; intros a a' H; simpl; [exact H|].
  apply IH. rewrite py_max_Qmax. now rewrite H.
Qed.

Lemma fold_Qmin_le (l : list Q) (a : Q) :
  fold_left Qmin l a <= a /\ Forall (Qle (fold_left Qmin l a)) l.
Proof.
  revert a. induction l as [|v l IH]; intros a; simpl.
  - split; [lra | constructor].
  - destruct (IH (Qmin a v)) as [H1 H2].
    pose proof (Q.le_min_l a v). pose proof (Q.le_min_r a v).
    split; [lra|]. constructor; [lra | exact H2].
Qed.

Lemma fold_Qmax_ge (l : list Q) (a : Q) :
  a <= fold_left Qmax l a /\ Forall (fun v => v <= fold_left Qmax l a) l.
Proof.
  revert a. induction l as [|v l IH]; intros a; simpl.
  - split; [lra | constructor].
  - destruct (IH (Qmax a v)) as [H1 H2].
    pose proof (Q.le_max_l a v). pose proof (Q.le_max_r a v).
    split; [lra|]. constructor; [lra | exact H2].
Qed.

Lemma fold_Qmin_attained (l : list Q) (a : Q) :
  Exists (Qeq (fold_left Qmin l a)) (a :: l).
Proof.
  revert a. induction l as [|v l IH]; intros a; simpl.
  - now constructor.
  - specialize (IH (Qmin a v)). inversion IH as [? ? H|? ? H]; subst.
    + destruct (Q.min_spec a v) as [[_ E]|[_ E]].
      * apply Exists_cons_hd. now rewrite H, E.
      * apply Exists_cons_tl, Exists_cons_hd. now rewrite H, E.
    + now apply Exists_cons_tl, Exists_cons_tl.
Qed.

Lemma fold_Qmax_attained (l : list Q) (a : Q) :
  Exists (Qeq (fold_left Qmax l a)) (a :: l).
Proof.
  revert a. induction l as [|v l IH]; intros a; simpl.
  - now constructor.
  - specialize (IH (Qmax a v)). inversion IH as [? ? H|? ? H]; subst.
    + destruct (Q.max_spec a v) as [[_ E]|[_ E]].
      * apply Exists_cons_tl, Exists_cons_hd. now rewrite H, E.
      * apply Exists_cons_hd. now rewrite H, E.
    + now apply Exists_cons_tl, Exists_cons_tl.
Qed.

(** [lowest] and [highest] are the least and the greatest element. *)
Lemma lowest_is_least (a : Q) (l : list Q) :
  Forall (Qle (lowest (a :: l))) (a :: l)
  /\ Exists (Qeq (lowest (a :: l))) (a :: l).
Proof.
  simpl. destruct (fold_Qmin_le l a) as [H1 H2].
  split; [now constructor | apply fold_Qmin_attained].
Qed.

Lemma highest_is_greatest (a : Q) (l : list Q) :
  Forall (fun v => v <= highest (a :: l)) (a :: l)
  /\ Exists (Qeq (highest (a :: l))) (a :: l).
Proof.
  simpl. destruct (fold_Qmax_ge l a) as [H1 H2].
  split; [now constructor | apply fold_Qmax_attained].
Qed.

Lemma lowest_le_highest (a : Q) (l : list Q) :
  lowest (a :: l) <= highest (a :: l).
Proof.
  simpl. pose proof (fold_Qmin_le l a) as [H1 _].
  pose proof (fold_Qmax_ge l a) as [H2 _]. lra.
Qed.

Lemma spec_range_pos (a : Q) (l : list Q) : 0 < spec_range (a :: l).
Proof.
  unfold spec_range. pose proof (lowest_le_highest a l) as H.
  destruct (Qeq_dec (highest (a :: l) - lowest (a :: l)) 0) as [E|E]; lra.
Qed.

Lemma py_or_range (mx mn : Q) (a : Q) (l : list Q) :
  mx == highest (a :: l) -> mn == lowest (a :: l) ->
  py_or (mx - mn) 1 == spec_range (a :: l).
Proof.
  intros Hx Hn. unfold py_or, spec_range.
  destruct (Qeq_bool (mx - mn) 0) eqn:E.
  - apply Qeq_bool_iff in E.
    destruct (Qeq_dec (highest (a :: l) - lowest (a :: l)) 0) as [E'|E']; lra.
  - apply Qeq_bool_neq in E.
    destruct (Qeq_dec (highest (a :: l) - lowest (a :: l)) 0) as [E'|E']; lra.
Qed.

Lemma py_div_ok (a c : Q) : ~ c == 0 -> py_div a c = Ok (a / c).
Proof.
  intros H. unfold py_div. destruct (Qeq_bool c 0) eqn:E; [|reflexivity].
  apply Qeq_bool_iff in E. contradiction.
Qed.

(** The loop that builds [normalized] is a map over the input. *)
Lemma append_loop_map {A B : Type} (f : A -> B) (l : list A) (acc : list B) :
  fold_left (fun acc a => acc ++ [f a]) l acc = acc ++ map f l.
Proof.
  revert acc. induction l as [|a l IH]; intros acc; simpl.
  - now rewrite app_nil_r.
  - now rewrite IH, <- app_assoc.
Qed.

(** ** The normalizer *)

Lemma normalize_nonempty (s0 : GaussianSplat) (rest : list GaussianSplat)
    (target_size : Q) (center : bool) :
  let splats := s0 :: rest in
  exists cx cy cz sf : Q,
    normalize_splats splats target_size center
    = Ok (map (transform cx cy cz sf) splats)
    /\ cx == spec_center center (map x splats)
    /\ cy == spec_center center (map y splats)
    /\ cz == spec_center center (map z splats)
    /\ sf == spec_scale_factor target_size splats.
Proof.
  cbv zeta. unfold normalize_splats.
  cbn [map py_min_list py_max_list bind].
  set (min_x := fold_left py_min (map x rest) (x s0)).
  set (max_x := fold_left py_max (map x rest) (x s0)).
  set (min_y := fold_left py_min (map y rest) (y s0)).
  set (max_y := fold_left py_max (map y rest) (y s0)).
  set (min_z := fold_left py_min (map z rest) (z s0)).
  set (max_z := fold_left py_max (map z rest) (z s0)).
  assert (Hminx : min_x == lowest (x s0 :: map x rest))
    by (apply fold_py_min; reflexivity).
  assert (Hmaxx : max_x == highest (x s0 :: map x rest))
    by (apply fold_py_max; reflexivity).
  assert (Hminy : min_y == lowest (y s0 :: map y rest))
    by (apply fold_py_min; reflexivity).
  assert (Hmaxy : max_y == highest (y s0 :: map y rest))
    by (apply fold_py_max; reflexivity).
  assert (Hminz : min_z == lowest (z s0 :: map z rest))
    by (apply fold_py_min; reflexivity).
  assert (Hmaxz : max_z == highest (z s0 :: map z rest))
    by (apply fold_py_max; reflexivity).
  pose proof (py_or_range _ _ _ _ Hmaxx Hminx) as Hrx.
  pose proof (py_or_range _ _ _ _ Hmaxy Hminy) as Hry.
  pose proof (py_or_range _ _ _ _ Hmaxz Hminz) as Hrz.
  set (range_x := py_or (max_x - min_x) 1) in *.
  set (range_y := py_or (max_y - min_y) 1) in *.
  set (range_z := py_or (max_z - min_z) 1) in *.
  assert (Hmr : py_max (py_max range_x range_y) range_z
                == Qmax (Qmax (spec_range (x s0 :: map x rest))
                              (spec_range (y s0 :: map y rest)))
                        (spec_range (z s0 :: map z rest))).
  { rewrite !py_max_Qmax. now rewrite Hrx, Hry, Hrz. }
  set (max_range := py_max (py_max range_x range_y) range_z) in *.
  assert (Hpos : 0 < max_range).
  { rewrite Hmr. pose proof (spec_range_pos (z s0) (map z rest)).
    pose proof (Q.le_max_r (Qmax (spec_range (x s0 :: map x rest))
                              (spec_range (y s0 :: map y rest)))
                           (spec_range (z s0 :: map z rest))). lra. }
  rewrite (py_div_ok target_size max_range) by lra.
  cbn [bind].
  assert (Hsf : target_size / max_range == spec_scale_factor target_size (s0 :: rest)).
  { unfold spec_scale_factor. cbn [map]. now rewrite Hmr. }
  destruct center.
  - rewrite !py_div_ok by lra. cbn [bind].
    rewrite append_loop_map. cbn [app].
    eexists _, _, _, _. split; [reflexivity|].
    unfold spec_center. cbn [map].
    rewrite Hminx, Hmaxx, Hminy, Hmaxy, Hminz, Hmaxz.
    repeat split; try reflexivity. exact Hsf.
  - cbn [bind]. rewrite append_loop_map. cbn [app].
    eexists _, _, _, _. split; [reflexivity|].
    repeat split; try reflexivity. exact Hsf.
Qed.

Lemma Forall2_map_r {A B : Type} (P : A -> B -> Prop) (f : A -> B) (l : list A) :
  (forall a, P a (f a)) -> Forall2 P l (map f l).
Proof. intros H. induction l; simpl; constructor; auto. Qed.

Lemma spec_range_single (v : Q) : spec_range [v] == 1.
Proof.
  unfold spec_range. simpl.
  destruct (Qeq_dec (v - v) 0) as [E|E]; [reflexivity | exfalso; apply E; lra].
Qed.

(** C2: the normalizer returns the empty sequence for empty input; for a
    non-empty sequence it never fails (no division by zero, whatever the
    cloud) and returns a sequence of the same length in which every position
    axis is [(value - center_axis) * scale_factor] and every scale is
    [scale * scale_factor], colour and opacity being untouched, where
    [range = max - min] per axis with 1 for a zero range,
    [scale_factor = target_extent / max(range_x, range_y, range_z)] and
    [center_axis] is the axis midpoint when centering and 0 otherwise.  For a
    single splat the scale factor is the target extent itself. *)
Theorem normalizer_spec :
  (forall (target_size : Q) (center : bool),
      normalize_splats [] target_size center = Ok [])
  /\ (forall (s0 : GaussianSplat) (rest : list GaussianSplat)
             (target_size : Q) (center : bool),
        let splats := s0 :: rest in
        exists out : list GaussianSplat,
          normalize_splats splats target_size center = Ok out
          /\ length out = length splats
          /\ Forall2 (normalized_as_specified target_size center splats)
                     splats out)
  /\ (forall (s : GaussianSplat) (target_size : Q) (center : bool),
        exists o : GaussianSplat,
          normalize_splats [s] target_size center = Ok [o]
          /\ scale o == scale s * target_size
          /\ x o == (if center then 0 else x s * target_size)
          /\ y o == (if center then 0 else y s * target_size)
          /\ z o == (if center then 0 else z s * target_size)).
Proof.
  split; [reflexivity|]. split.
  - intros s0 rest target_size center splats.
    destruct (normalize_nonempty s0 rest target_size center)
      as (cx & cy & cz & sf & Hrun & Hcx & Hcy & Hcz & Hsf).
    exists (map (transform cx cy cz sf) splats).
    split; [exact Hrun|]. split; [apply length_map|].
    apply Forall2_map_r. intros s.
    unfold normalized_as_specified, transform. cbn [x y z r g b opacity scale].
    fold splats. repeat split; try reflexivity.
    + now rewrite Hcx, Hsf.
    + now rewrite Hcy, Hsf.
    + now rewrite Hcz, Hsf.
    + now rewrite Hsf.
  - intros s target_size center.
    destruct (normalize_nonempty s [] target_size center)
      as (cx & cy & cz & sf & Hrun & Hcx & Hcy & Hcz & Hsf).
    exists (transform cx cy cz sf s). split; [exact Hrun|].
    assert (Hsf' : sf == target_size).
    { rewrite Hsf. unfold spec_scale_factor. cbn [map].
      rewrite !spec_range_single.
      assert (E : Qmax (Qmax 1 1) 1 == 1) by reflexivity.
      rewrite E. field. }
    unfold transform. cbn [x y z r g b opacity scale].
    unfold spec_center in Hcx, Hcy, Hcz. cbn [map lowest highest fold_left] in Hcx, Hcy, Hcz.
    destruct center; repeat split; rewrite ?Hcx, ?Hcy, ?Hcz, Hsf'; field.
Qed.

(** ** The stable descending sort *)

Section StableSort.

Context {A : Type} (key : A -> Q).

Lemma insert_desc_perm (a : A) (l : list A) :
  Permutation (insert_desc key a l) (a :: l).
Proof.
  induction l as [|h t IH]; simpl; [reflexivity|].
  destruct (py_lt (key a) (key h)); [|reflexivity].
  rewrite IH. apply perm_swap.
Qed.

Lemma sorted_desc_perm (l : list A) : Permutation (sorted_desc key l) l.
Proof.
  induction l as [|a l IH]; simpl; [reflexivity|].
  rewrite insert_desc_perm. now constructor.
Qed.

Lemma sorted_desc_length (l : list A) : length (sorted_desc key l) = length l.
Proof. apply Permutation_length, sorted_desc_perm. Qed.

(** The sort produces descending keys. *)
Lemma insert_desc_sorted (a : A) (l : list A) :
  StronglySorted (fun u v => key v <= key u) l ->
  StronglySorted (fun u v => key v <= key u) (insert_desc key a l).
Proof.
  induction l as [|h t IH]; intros Hs; simpl.
  - repeat constructor.
  - apply StronglySorted_inv in Hs as [Ht Hh].
    case_lt (key a) (key h).
    + constructor; [now apply IH|].
      eapply Permutation_Forall; [symmetry; apply insert_desc_perm|].
      constructor; [lra | exact Hh].
    + constructor; [now constructor|].
      constructor; [exact E|].
      eapply List.Forall_impl; [|exact Hh]. intros v Hv. simpl in Hv. lra.
Qed.

Lemma sorted_desc_sorted (l : list A) :
  StronglySorted (fun u v => key v <= key u) (sorted_desc key l).
Proof.
  induction l as [|a l IH]; simpl; [constructor | now apply insert_desc_sorted].
Qed.

End StableSort.

Section Stability.

Context {A : Type} (key : A -> Q).

Lemma insert_desc_tagged (p : nat * A) (l : list (nat * A)) :
  map snd (insert_desc (tagged_key key) p l)
  = insert_desc key (snd p) (map snd l).
Proof.
  induction l as [|h t IH]; simpl; [reflexivity|].
  unfold tagged_key at 1 2.
  destruct (py_lt (key (snd p)) (key (snd h))); simpl; [now rewrite IH|reflexivity].
Qed.

Lemma sorted_desc_tagged (l : list (nat * A)) :
  map snd (sorted_desc (tagged_key key) l) = sorted_desc key (map snd l).
Proof.
  induction l as [|p l IH]; simpl; [reflexivity|].
  now rewrite insert_desc_tagged, IH.
Qed.

Lemma insert_desc_stable (p : nat * A) (l : list (nat * A)) :
  StronglySorted (tagged_before key) l ->
  Forall (fun q => (fst p < fst q)%nat) l ->
  StronglySorted (tagged_before key) (insert_desc (tagged_key key) p l).
Proof.
  induction l as [|h t IH]; intros Hs Hp; simpl.
  - repeat constructor.
  - apply StronglySorted_inv in Hs as [Ht Hh].
    apply Forall_cons_iff in Hp as [Hph Hpt].
    unfold tagged_key at 1 2.
    case_lt (key (snd p)) (key (snd h)).
    + constructor; [now apply IH|].
      eapply Permutation_Forall; [symmetry; apply insert_desc_perm|].
      constructor; [now left | exact Hh].
    + constructor; [now constructor|].
      assert (Hhd : tagged_before key p h).
      { destruct (Qlt_le_dec (key (snd h)) (key (snd p))); [now left|].
        right. split; [lra | exact Hph]. }
      constructor; [exact Hhd|].
      rewrite List.Forall_forall in Hh, Hpt. apply List.Forall_forall. intros q Hq.
      specialize (Hh q Hq). specialize (Hpt q Hq).
      destruct Hh as [Hlt|[Heq _]], Hhd as [Hlt'|[Heq' _]];
        try (left; lra); right; split; (lra || exact Hpt).
Qed.

Lemma sorted_desc_stable (l : list (nat * A)) :
  StronglySorted (fun p q => (fst p < fst q)%nat) l ->
  StronglySorted (tagged_before key) (sorted_desc (tagged_key key) l).
Proof.
  induction l as [|p l IH]; intros Hs; simpl; [constructor|].
  apply StronglySorted_inv in Hs as [Hl Hp].
  apply insert_desc_stable; [now apply IH|].
  eapply Permutation_Forall; [symmetry; apply sorted_desc_perm | exact Hp].
Qed.

End Stability.

(** ** Positions in the input *)

Lemma tag_from_snd {A : Type} (n : nat) (l : list A) :
  map snd (tag_from n l) = l.
Proof.
  revert n. induction l as [|a t IH]; intros n; simpl; [reflexivity|].
  now rewrite IH.
Qed.

Lemma tag_from_In {A : Type} (n : nat) (l : list A) (i : nat) (a : A) :
  In (i, a) (tag_from n l) <-> (n <= i)%nat /\ nth_error l (i - n) = Some a.
Proof.
  revert n. induction l as [|h t IH]; intros n; simpl.
  - split; [contradiction|]. intros [_ H]. destruct (i - n)%nat; discriminate.
  - rewrite IH. split.
    + intros [H|[Hle H]].
      * inversion H; subst. split; [lia|]. now rewrite Nat.sub_diag.
      * split; [lia|]. replace (i - n)%nat with (S (i - S n)) by lia. exact H.
    + intros [Hle H]. destruct (i - n)%nat as [|m] eqn:E.
      * left. simpl in H. inversion H; subst. f_equal. lia.
      * right. split; [lia|]. simpl in H.
        replace (i - S n)%nat with m by lia. exact H.
Qed.

Lemma tag_from_sorted {A : Type} (n : nat) (l : list A) :
  StronglySorted (fun p q : nat * A => (fst p < fst q)%nat) (tag_from n l).
Proof.
  revert n. induction l as [|h t IH]; intros n; simpl; constructor.
  - apply IH.
  - apply List.Forall_forall. intros [i a] Hin. apply tag_from_In in Hin. simpl. lia.
Qed.

Lemma StronglySorted_app_cross {A : Type} (R : A -> A -> Prop) (l1 l2 : list A) :
  StronglySorted R (l1 ++ l2) ->
  forall a c, In a l1 -> In c l2 -> R a c.
Proof.
  induction l1 as [|h t IH]; simpl; intros Hs a c Ha Hc; [contradiction|].
  apply StronglySorted_inv in Hs as [Ht Hh].
  destruct Ha as [->|Ha]; [|now apply IH].
  rewrite List.Forall_forall in Hh. apply Hh. apply in_or_app. now right.
Qed.

Lemma In_firstn {A : Type} (n : nat) (l : list A) (a : A) :
  In a (firstn n l) -> In a l.
Proof.
  intros H. rewrite <- (firstn_skipn n l). apply in_or_app. now left.
Qed.

Lemma StronglySorted_firstn {A : Type} (R : A -> A -> Prop) (n : nat) (l : list A) :
  StronglySorted R l -> StronglySorted R (firstn n l).
Proof.
  revert n. induction l as [|h t IH]; intros n Hs; destruct n; simpl;
    try constructor.
  - apply IH. now apply StronglySorted_inv in Hs.
  - apply StronglySorted_inv in Hs as [_ Hh].
    rewrite List.Forall_forall in *. intros v Hv. apply Hh.
    eapply In_firstn; eauto.
Qed.

Lemma StronglySorted_map_In {A B : Type} (R : A -> A -> Prop) (R' : B -> B -> Prop)
    (f : A -> B) (l : list A) :
  (forall a c, In a l -> In c l -> R a c -> R' (f a) (f c)) ->
  StronglySorted R l -> StronglySorted R' (map f l).
Proof.
  induction l as [|h t IH]; intros Hf Hs; simpl; constructor.
  - apply IH; [|now apply StronglySorted_inv in Hs].
    intros a c Ha Hc. apply Hf; now right.
  - apply StronglySorted_inv in Hs as [_ Hh].
    rewrite List.Forall_forall in *. intros v Hv.
    apply in_map_iff in Hv as (a & <- & Ha).
    apply Hf; [now left | now right | now apply Hh].
Qed.

(** The by-opacity path, read on positions of the input. *)
Lemma by_opacity_positions (splats : list GaussianSplat) (n : nat) :
  exists idxs : list nat,
    Forall2 (fun i s => nth_error splats i = Some s)
            idxs (firstn n (sorted_desc opacity splats))
    /\ StronglySorted (ranks_before splats) idxs
    /\ (forall i j, In i idxs -> (j < length splats)%nat -> ~ In j idxs ->
                    ranks_before splats i j).
Proof.
  set (st := sorted_desc (tagged_key opacity) (tag_from 0 splats)).
  assert (Hperm : Permutation st (tag_from 0 splats))
    by apply sorted_desc_perm.
  assert (Hst : StronglySorted (tagged_before opacity) st)
    by apply sorted_desc_stable, tag_from_sorted.
  assert (Hsnd : map snd st = sorted_desc opacity splats).
  { unfold st. now rewrite sorted_desc_tagged, tag_from_snd. }
  assert (Hnth : forall p, In p st -> nth_error splats (fst p) = Some (snd p)).
  { intros [i a] Hin. eapply Permutation_in in Hin; [|exact Hperm].
    apply tag_from_In in Hin as [_ H]. simpl. now rewrite Nat.sub_0_r in H. }
  assert (Hrank : forall p q, In p st -> In q st ->
             tagged_before opacity p q -> ranks_before splats (fst p) (fst q)).
  { intros p q Hp Hq Hb. exists (snd p), (snd q).
    split; [now apply Hnth|]. split; [now apply Hnth | exact Hb]. }
  exists (map fst (firstn n st)). split; [|split].
  - rewrite <- Hsnd, firstn_map.
    assert (Hsub : forall p, In p (firstn n st) -> In p st)
      by (intros p; apply In_firstn).
    induction (firstn n st) as [|p l IH]; simpl; constructor.
    + apply Hnth, Hsub. now left.
    + apply IH. intros q Hq. apply Hsub. now right.
  - apply StronglySorted_map_In with (R := tagged_before opacity).
    + intros p q Hp Hq. apply Hrank; eapply In_firstn; eauto.
    + now apply StronglySorted_firstn.
  - intros i j Hi Hj Hnot.
    apply in_map_iff in Hi as (p & <- & Hp).
    destruct (nth_error splats j) as [sj|] eqn:Ej;
      [|apply nth_error_None in Ej; lia].
    assert (Hq : In (j, sj) st).
    { eapply Permutation_in; [symmetry; exact Hperm|].
      apply tag_from_In. split; [lia|]. now rewrite Nat.sub_0_r. }
    rewrite <- (firstn_skipn n st) in Hq, Hst.
    apply in_app_or in Hq as [Hq|Hq].
    + exfalso. apply Hnot. apply in_map_iff. now exists (j, sj).
    + change j with (fst (j, sj)). apply Hrank.
      * eapply In_firstn; eauto.
      * rewrite <- (firstn_skipn n st). apply in_or_app. now right.
      * eapply StronglySorted_app_cross; eauto.
Qed.

(** ** The selector *)

Section SelectorProperties.

Variable rng : Type.
Variable np_random_choice : sampler rng.

Abbreviation downsample := (downsample_splats rng np_random_choice).

Lemma downsample_short (splats : list GaussianSplat) (max_count : Z)
    (method : string) (gen : rng) :
  (Z.of_nat (length splats) <= max_count)%Z ->
  downsample splats max_count method gen = (Ok splats, gen).
Proof.
  intros H. unfold downsample_splats.
  now rewrite (proj2 (Z.leb_le _ _) H).
Qed.

Lemma downsample_opacity (splats : list GaussianSplat) (max_count : Z) (gen : rng) :
  (max_count < Z.of_nat (length splats))%Z ->
  downsample splats max_count "opacity" gen
  = (Ok (py_slice_to (sorted_desc opacity splats) max_count), gen).
Proof.
  intros H. unfold downsample_splats.
  now rewrite (proj2 (Z.leb_gt _ _) H).
Qed.

Lemma downsample_other (splats : list GaussianSplat) (max_count : Z)
    (method : string) (gen : rng) :
  method <> "opacity" ->
  (max_count < Z.of_nat (length splats))%Z ->
  downsample splats max_count method gen
  = (bind (fst (np_random_choice (length splats) max_count false gen))
          (try_map (py_index splats)),
     snd (np_random_choice (length splats) max_count false gen)).
Proof.
  intros Hm H. unfold downsample_splats.
  rewrite (proj2 (Z.leb_gt _ _) H).
  rewrite (proj2 (String.eqb_neq _ _) Hm).
  now destruct (np_random_choice (length splats) max_count false gen).
Qed.

Lemma py_slice_to_length {A : Type} (l : list A) (k : Z) :
  (length (py_slice_to l k) <= length l)%nat.
Proof.
  unfold py_slice_to. destruct (0 <=? k)%Z; rewrite length_firstn; lia.
Qed.

Lemma try_map_index_raise {A : Type} (l : list A) (idxs : list nat) (e : exn) :
  try_map (py_index l) idxs = Raise e ->
  e = IndexError /\ Exists (fun i => (length l <= i)%nat) idxs.
Proof.
  induction idxs as [|i idxs IH]; simpl; [discriminate|].
  unfold py_index at 1. destruct (nth_error l i) eqn:E; simpl.
  - destruct (try_map (py_index l) idxs) eqn:Em; simpl; [discriminate|].
    intros H. inversion H; subst. destruct (IH eq_refl) as [-> Hex].
    split; [reflexivity | now apply Exists_cons_tl].
  - intros H. inversion H; subst. split; [reflexivity|].
    apply Exists_cons_hd. now apply nth_error_None.
Qed.

(** The sampling path keeps the splats at the drawn positions as they are,
    provided the drawn indices are positions of the input. *)
Lemma try_map_index_total {A : Type} (l : list A) (idxs : list nat) :
  Forall (fun i => (i < length l)%nat) idxs ->
  exists out : list A,
    try_map (py_index l) idxs = Ok out
    /\ Forall2 (fun i a => nth_error l i = Some a) idxs out.
Proof.
  induction idxs as [|i idxs IH]; intros H; simpl.
  - exists []. split; [reflexivity | constructor].
  - apply Forall_cons_iff in H as [Hi Hrest].
    destruct (IH Hrest) as (out & -> & Hsel).
    unfold py_index. destruct (nth_error l i) as [a|] eqn:E.
    + exists (a :: out). split; [reflexivity | now constructor].
    + apply nth_error_None in E. lia.
Qed.

End SelectorProperties.

(** C3: for [0 < k < n] the by-opacity policy (method ["opacity"]) returns
    exactly [k] splats, in descending opacity.  They are the splats at positions [idxs] of the
    input, each unchanged; these positions are listed in rank order (higher
    opacity first, and among equal opacities the earlier input position
    first), and every kept position ranks before every position left out:
    the result is the [k] highest-opacity splats, ties going to the earlier
    splat. *)
Theorem by_opacity_top_k (rng : Type)
    (np_random_choice : sampler rng)
    (splats : list GaussianSplat) (k : Z) (gen : rng) :
  (0 < k < Z.of_nat (length splats))%Z ->
  exists (out : list GaussianSplat) (idxs : list nat),
    downsample_splats rng np_random_choice splats k "opacity" gen = (Ok out, gen)
    /\ length out = Z.to_nat k
    /\ StronglySorted (fun s t => opacity t <= opacity s) out
    /\ Forall2 (fun i s => nth_error splats i = Some s) idxs out
    /\ StronglySorted (ranks_before splats) idxs
    /\ (forall i j, In i idxs -> (j < length splats)%nat -> ~ In j idxs ->
                    ranks_before splats i j).
Proof.
  intros [Hk Hn].
  destruct (by_opacity_positions splats (Z.to_nat k)) as (idxs & Hsel & Hsorted & Htop).
  exists (firstn (Z.to_nat k) (sorted_desc opacity splats)), idxs.
  split.
  - rewrite downsample_opacity by exact Hn. unfold py_slice_to.
    now rewrite (proj2 (Z.leb_le 0 k)) by lia.
  - split.
    + rewrite length_firstn, sorted_desc_length. lia.
    + split; [|now repeat split].
      apply StronglySorted_firstn, sorted_desc_sorted.
Qed.

(** C3 on three splats, two of them with the same opacity, and [k = 2]. *)
Lemma by_opacity_top_k_witness :
  (0 < 2 < Z.of_nat (length [splat_b; splat_a; splat_c]))%Z
  /\ exists (out : list GaussianSplat) (idxs : list nat),
       downsample_splats unit first_indices [splat_b; splat_a; splat_c] 2
         "opacity" tt = (Ok out, tt)
       /\ length out = Z.to_nat 2
       /\ StronglySorted (fun s t => opacity t <= opacity s) out
       /\ Forall2 (fun i s => nth_error [splat_b; splat_a; splat_c] i = Some s)
                  idxs out
       /\ StronglySorted (ranks_before [splat_b; splat_a; splat_c]) idxs
       /\ (forall i j, In i idxs ->
                       (j < length [splat_b; splat_a; splat_c])%nat ->
                       ~ In j idxs ->
                       ranks_before [splat_b; splat_a; splat_c] i j).
Proof.
  split; [simpl; lia|].
  apply (by_opacity_top_k unit first_indices [splat_b; splat_a; splat_c] 2 tt).
  simpl; lia.
Defined.

(** The by-opacity policy on examples: [splat_a] and [splat_c] have the
    same opacity, and the one that comes first in the input is kept when only
    one of them fits. *)
Example by_opacity_example :
  fst (downsample_splats unit first_indices [splat_b; splat_a; splat_c] 2
         "opacity" tt) = Ok [splat_a; splat_c]
  /\ fst (downsample_splats unit first_indices [splat_b; splat_a; splat_c] 1
            "opacity" tt) = Ok [splat_a]
  /\ fst (downsample_splats unit first_indices [splat_c; splat_b; splat_a] 1
            "opacity" tt) = Ok [splat_c].
Proof. repeat split; reflexivity. Qed.

(** C8: when the input is no longer than the maximum count the selector
    returns the input itself, whatever the policy, and leaves the random
    generator alone. *)
Theorem selector_identity (rng : Type)
    (np_random_choice : sampler rng)
    (splats : list GaussianSplat) (max_count : Z) (method : string) (gen : rng) :
  (Z.of_nat (length splats) <= max_count)%Z ->
  downsample_splats rng np_random_choice splats max_count method gen
  = (Ok splats, gen).
Proof. apply downsample_short. Qed.

(** C8 on three splats and maximum count 3, under the random policy. *)
Lemma selector_identity_witness :
  (Z.of_nat (length [splat_b; splat_a; splat_c]) <= 3)%Z
  /\ downsample_splats unit first_indices [splat_b; splat_a; splat_c] 3
       "random" tt
     = (Ok [splat_b; splat_a; splat_c], tt).
Proof.
  split; [simpl; lia|].
  apply (selector_identity unit first_indices [splat_b; splat_a; splat_c] 3
           "random" tt).
  simpl; lia.
Defined.

(** C9, as stated, fails: a non-positive maximum count is not rejected.
    With maximum count 0 the by-opacity policy returns the empty sequence,
    and with -1 it returns all but the lowest-ranked splat. *)
Lemma nonpositive_count_not_rejected :
  downsample_splats unit first_indices [splat_b; splat_a; splat_c] 0
    "opacity" tt = (Ok [], tt)
  /\ downsample_splats unit first_indices [splat_b; splat_a; splat_c] (-1)
       "opacity" tt = (Ok [splat_a; splat_c], tt).
Proof. split; reflexivity. Qed.

(** C9, amended: the selector does not validate the maximum count.  Under
    the by-opacity policy it returns a sequence, no longer than the input,
    for every input and every maximum count, non-positive ones included; for
    a non-empty input and maximum count 0 that sequence is empty.  Whatever
    the policy, a failure of the selector is a failure of the random sampler
    or an out-of-range index among the drawn ones, and occurs on the
    sampling path only. *)
Theorem selector_no_validation :
  (forall (rng : Type)
          (np_random_choice : sampler rng)
          (splats : list GaussianSplat) (max_count : Z) (gen : rng),
      exists out : list GaussianSplat,
        downsample_splats rng np_random_choice splats max_count "opacity" gen
        = (Ok out, gen)
        /\ (length out <= length splats)%nat)
  /\ (forall (rng : Type)
             (np_random_choice : sampler rng)
             (s : GaussianSplat) (rest : list GaussianSplat) (gen : rng),
        downsample_splats rng np_random_choice (s :: rest) 0 "opacity" gen
        = (Ok [], gen))
  /\ (forall (rng : Type)
             (np_random_choice : sampler rng)
             (splats : list GaussianSplat) (max_count : Z) (method : string)
             (gen : rng) (e : exn),
        fst (downsample_splats rng np_random_choice splats max_count method gen)
        = Raise e ->
        method <> "opacity"
        /\ (max_count < Z.of_nat (length splats))%Z
        /\ (fst (np_random_choice (length splats) max_count false gen) = Raise e
            \/ exists idxs : list nat,
                 fst (np_random_choice (length splats) max_count false gen)
                 = Ok idxs
                 /\ e = IndexError
                 /\ Exists (fun i => (length splats <= i)%nat) idxs)).
Proof.
  split; [|split].
  - intros rng choice splats max_count gen.
    destruct (Z.le_gt_cases (Z.of_nat (length splats)) max_count) as [H|H].
    + exists splats. split; [now apply downsample_short | lia].
    + eexists. split; [now apply downsample_opacity|].
      rewrite <- (sorted_desc_length opacity splats). apply py_slice_to_length.
  - intros rng choice s rest gen.
    rewrite downsample_opacity by (simpl; lia). reflexivity.
  - intros rng choice splats max_count method gen e H.
    destruct (Z.le_gt_cases (Z.of_nat (length splats)) max_count) as [Hle|Hgt].
    + rewrite downsample_short in H by exact Hle. discriminate H.
    + destruct (string_dec method "opacity") as [->|Hm].
      * rewrite downsample_opacity in H by exact Hgt. discriminate H.
      * rewrite downsample_other in H by assumption. simpl in H.
        split; [exact Hm|]. split; [exact Hgt|].
        destruct (fst (choice (length splats) max_count false gen)) as [idxs|e'];
          simpl in H.
        -- right. exists idxs. split; [reflexivity|].
           now apply try_map_index_raise.
        -- left. now inversion H.
Qed.

(** C10: the selector tests the method against the string ["opacity"] only.
    For an input longer than the maximum count every other method, the
    policy name ["by-opacity"] included, runs the sampling path: the result
    is the splats at the indices that [np.random.choice] draws without
    replacement, and is the same as for ["random"]; no method is rejected. *)
Theorem unrecognised_method_samples (rng : Type)
    (np_random_choice : sampler rng)
    (splats : list GaussianSplat) (max_count : Z) (method : string) (gen : rng) :
  method <> "opacity" ->
  (max_count < Z.of_nat (length splats))%Z ->
  downsample_splats rng np_random_choice splats max_count method gen
  = (bind (fst (np_random_choice (length splats) max_count false gen))
          (try_map (py_index splats)),
     snd (np_random_choice (length splats) max_count false gen))
  /\ downsample_splats rng np_random_choice splats max_count method gen
     = downsample_splats rng np_random_choice splats max_count "random" gen.
Proof.
  intros Hm Hn. split; [now apply downsample_other|].
  rewrite !downsample_other; (assumption || discriminate || reflexivity).
Qed.

(** C10 on three splats, maximum count 2 and the method ["by-opacity"]. *)
Lemma unrecognised_method_samples_witness :
  ("by-opacity" <> "opacity"
   /\ (2 < Z.of_nat (length [splat_b; splat_a; splat_c]))%Z)
  /\ downsample_splats unit first_indices [splat_b; splat_a; splat_c] 2
       "by-opacity" tt
     = (bind (fst (first_indices (length [splat_b; splat_a; splat_c]) 2%Z false tt))
             (try_map (py_index [splat_b; splat_a; splat_c])),
        snd (first_indices (length [splat_b; splat_a; splat_c]) 2%Z false tt))
  /\ downsample_splats unit first_indices [splat_b; splat_a; splat_c] 2
       "by-opacity" tt
     = downsample_splats unit first_indices [splat_b; splat_a; splat_c] 2
         "random" tt.
Proof.
  split; [split; [discriminate | simpl; lia]|].
  apply (unrecognised_method_samples unit first_indices
           [splat_b; splat_a; splat_c] 2 "by-opacity" tt).
  - discriminate.
  - simpl; lia.
Defined.

(** ** The emitter's loop *)

(** The loop appends to [lines] and never rewrites what is already there. *)
Lemma emit_loop_app (relative : bool) (min_opacity : Q)
    (splats : list GaussianSplat) (lines : list string) :
  fold_left (emit_step relative min_opacity) splats lines
  = lines ++ map (particle_line relative)
               (List.filter (fun s => Qle_bool min_opacity (opacity s)) splats).
Proof.
  revert lines. induction splats as [|s rest IH]; intros lines; simpl.
  - now rewrite app_nil_r.
  - rewrite IH. unfold emit_step, py_lt.
    destruct (Qle_bool min_opacity (opacity s)); simpl.
    + now rewrite <- app_assoc.
    + reflexivity.
Qed.

Lemma particle_scale_clamp (s : GaussianSplat) :
  particle_scale s == clamp (scale s * 50) 0.1 4.0.
Proof. unfold particle_scale. apply py_max_min_clamp. lra. Qed.


(** ** The formatted numbers *)

Lemma all_digits_app (s t : string) :
  all_digits (s +:+ t) = all_digits s && all_digits t.
Proof.
  unfold all_digits. induction s as [|c s IH]; simpl; [reflexivity|].
  now rewrite IH, andb_assoc.
Qed.

Lemma digit_char_is_digit (n : Z) : is_digit (digit_char n) = true.
Proof.
  unfold is_digit, digit_char.
  pose proof (Z.mod_pos_bound n 10 ltac:(lia)) as Hm.
  rewrite nat_ascii_embedding by lia.
  apply andb_true_intro. split; apply Nat.leb_le; lia.
Qed.

Lemma string_length_app (s t : string) :
  String.length (s +:+ t) = (String.length s + String.length t)%nat.
Proof. induction s as [|c s IH]; simpl; [reflexivity | now rewrite IH]. Qed.

Lemma frac_digits_length (d : nat) (n : Z) : String.length (frac_digits d n) = d.
Proof.
  revert n. induction d as [|d IH]; intros n; cbn [frac_digits]; [reflexivity|].
  rewrite string_length_app, IH. cbn [String.length]. lia.
Qed.

Lemma frac_digits_all_digits (d : nat) (n : Z) :
  all_digits (frac_digits d n) = true.
Proof.
  revert n. induction d as [|d IH]; intros n; cbn [frac_digits]; [reflexivity|].
  rewrite all_digits_app, IH. unfold all_digits.
  cbn [list_ascii_of_string forallb andb].
  now rewrite digit_char_is_digit.
Qed.

Lemma uint_digits (u : Decimal.uint) :
  all_digits (NilEmpty.string_of_uint u) = true.
Proof. induction u; simpl; try reflexivity; exact IHu. Qed.

Lemma int_digits_all_digits (n : Z) : all_digits (int_digits n) = true.
Proof.
  unfold int_digits, NilZero.string_of_uint.
  destruct (N.to_uint (Z.to_N n)) eqn:E; try reflexivity;
    rewrite <- E; apply uint_digits.
Qed.

Lemma int_digits_nonempty (n : Z) : int_digits n <> "".
Proof.
  unfold int_digits, NilZero.string_of_uint.
  destruct (N.to_uint (Z.to_N n)); simpl; discriminate.
Qed.

Lemma round_half_even_near (q : Q) :
  0 <= q ->
  (0 <= round_half_even q)%Z
  /\ Qabs (q - inject_Z (round_half_even q)) <= 1 # 2.
Proof.
  intros Hq. unfold round_half_even.
  pose proof (Qfloor_le q) as Hlo. pose proof (Qlt_floor q) as Hhi.
  assert (Hf : (0 <= Qfloor q)%Z).
  { change 0%Z with (Qfloor 0). now apply Qfloor_resp_le. }
  rewrite inject_Z_plus in Hhi. change (inject_Z 1) with 1 in Hhi.
  assert (Hup : inject_Z (Qfloor q + 1) == inject_Z (Qfloor q) + 1)
    by (now rewrite inject_Z_plus).
  destruct (Qcompare_spec (q - inject_Z (Qfloor q)) (1 # 2)) as [E|E|E].
  - destruct (Z.even (Qfloor q)); (split; [lia|]); apply Qabs_Qle_condition;
      rewrite ?Hup; split; lra.
  - split; [lia|]. apply Qabs_Qle_condition. split; lra.
  - split; [lia|]. apply Qabs_Qle_condition. rewrite Hup. split; lra.
Qed.

Lemma digits_value_app (s t : string) :
  digits_value (s +:+ t)
  = fold_left (fun acc c => (10 * acc + digit_value c)%Z)
      (list_ascii_of_string t) (digits_value s).
Proof.
  unfold digits_value. generalize 0%Z.
  induction s as [|c s IH]; intros acc; simpl; [reflexivity | apply IH].
Qed.

Lemma digit_char_value (n : Z) : digit_value (digit_char n) = (n mod 10)%Z.
Proof.
  unfold digit_value, digit_char.
  pose proof (Z.mod_pos_bound n 10 ltac:(lia)) as Hm.
  rewrite nat_ascii_embedding by lia. lia.
Qed.

Lemma frac_digits_value (d : nat) (n : Z) :
  digits_value (frac_digits d n) = (n mod 10 ^ Z.of_nat d)%Z.
Proof.
  revert n. induction d as [|d IH]; intros n; cbn [frac_digits].
  - change (10 ^ Z.of_nat 0)%Z with 1%Z. now rewrite Z.mod_1_r.
  - rewrite digits_value_app, IH. cbn [list_ascii_of_string fold_left].
    rewrite digit_char_value.
    replace (10 ^ Z.of_nat (S d))%Z with (10 * 10 ^ Z.of_nat d)%Z
      by (rewrite Nat2Z.inj_succ, Z.pow_succ_r by lia; reflexivity).
    rewrite (Z.rem_mul_r n 10 (10 ^ Z.of_nat d)) by lia. lia.
Qed.

Lemma uint_acc_value (u : Decimal.uint) (acc : positive) :
  Z.pos (Pos.of_uint_acc u acc)
  = fold_left (fun a c => (10 * a + digit_value c)%Z)
      (list_ascii_of_string (NilEmpty.string_of_uint u)) (Z.pos acc).
Proof.
  revert acc. induction u; intros acc; cbn [Pos.of_uint_acc NilEmpty.string_of_uint
    list_ascii_of_string fold_left]; try reflexivity; rewrite IHu; f_equal;
    unfold digit_value; cbn [nat_of_ascii]; vm_compute (Z.of_nat _); lia.
Qed.

Lemma uint_value (u : Decimal.uint) :
  Z.of_N (N.of_uint u) = digits_value (NilEmpty.string_of_uint u).
Proof.
  unfold N.of_uint, digits_value.
  induction u; cbn [Pos.of_uint NilEmpty.string_of_uint list_ascii_of_string fold_left];
    try reflexivity; try exact IHu; cbn [Z.of_N]; apply uint_acc_value.
Qed.

Lemma int_digits_value (n : Z) : (0 <= n)%Z -> digits_value (int_digits n) = n.
Proof.
  intros Hn. unfold int_digits, NilZero.string_of_uint.
  pose proof (DecimalN.Unsigned.of_to (Z.to_N n)) as H.
  apply (f_equal Z.of_N) in H. rewrite Z2N.id in H by exact Hn.
  rewrite uint_value in H.
  destruct (N.to_uint (Z.to_N n)); exact H.
Qed.

(** The formatted text is the number, rounded to [d] decimal digits. *)
Lemma format_fixed_numeral (d : nat) (q : Q) :
  fixed_numeral d q (format_fixed d q).
Proof.
  unfold format_fixed, fixed_numeral.
  set (p := (10 ^ Z.of_nat d)%Z).
  assert (Hp : (0 < p)%Z) by (apply Z.pow_pos_nonneg; lia).
  assert (Hs : 0 <= Qabs q * inject_Z p).
  { apply Qmult_le_0_compat; [apply Qabs_nonneg|].
    change 0 with (inject_Z 0). rewrite <- Zle_Qle. lia. }
  destruct (round_half_even_near _ Hs) as [Hn Hnear].
  set (n := round_half_even (Qabs q * inject_Z p)) in *.
  eexists _, (int_digits (n / p)), (frac_digits d n).
  split; [reflexivity|]. split.
  { case_lt q 0; [left | right]; split; (reflexivity || assumption). }
  split; [apply int_digits_nonempty|].
  split; [apply int_digits_all_digits|].
  split; [apply frac_digits_all_digits|].
  split; [apply frac_digits_length|].
  rewrite int_digits_value by (apply Z.div_pos; lia).
  rewrite frac_digits_value. fold p.
  replace (n / p * p + n mod p)%Z with n
    by (rewrite (Z.div_mod n p) at 1 by lia; lia).
  exact Hnear.
Qed.

(** The text depends on the value of the number only, not on the fraction
    that represents it. *)
Lemma round_half_even_proper (q q' : Q) :
  q == q' -> round_half_even q = round_half_even q'.
Proof.
  intros H. unfold round_half_even.
  rewrite (Qfloor_comp _ _ H).
  assert (Hc : Qcompare (q - inject_Z (Qfloor q')) (1 # 2)
               = Qcompare (q' - inject_Z (Qfloor q')) (1 # 2)).
  { apply Qcompare_comp; [rewrite H|]; reflexivity. }
  now rewrite Hc.
Qed.

Lemma py_lt_proper (a a' c c' : Q) :
  a == a' -> c == c' -> py_lt a c = py_lt a' c'.
Proof. intros Ha Hc. unfold py_lt. now rewrite (Qleb_comp _ _ Hc _ _ Ha). Qed.

Lemma format_fixed_proper (d : nat) (q q' : Q) :
  q == q' -> format_fixed d q = format_fixed d q'.
Proof.
  intros H. unfold format_fixed.
  rewrite (py_lt_proper q q' 0 0 H (Qeq_refl 0)).
  assert (Hr : round_half_even (Qabs q * inject_Z (10 ^ Z.of_nat d))
               = round_half_even (Qabs q' * inject_Z (10 ^ Z.of_nat d))).
  { apply round_half_even_proper. now rewrite H. }
  now rewrite Hr.
Qed.

Lemma format_pos_proper (relative : bool) (s t : GaussianSplat) :
  x s == x t -> y s == y t -> z s == z t ->
  format_pos relative s = format_pos relative t.
Proof.
  intros Hx Hy Hz. unfold format_pos.
  now rewrite (format_fixed_proper 3 _ _ Hx), (format_fixed_proper 3 _ _ Hy),
    (format_fixed_proper 3 _ _ Hz).
Qed.

Lemma clamp_proper (v v' lo hi : Q) : v == v' -> clamp v lo hi == clamp v' lo hi.
Proof.
  intros H. unfold clamp.
  destruct (Qlt_le_dec v lo), (Qlt_le_dec v' lo); try lra;
    destruct (Qlt_le_dec hi v), (Qlt_le_dec hi v'); lra.
Qed.

Lemma particle_line_proper (relative : bool) (s t : GaussianSplat) :
  splat_equiv s t -> particle_line relative s = particle_line relative t.
Proof.
  intros (Hx & Hy & Hz & Hr & Hg & Hb & _ & Hs). unfold particle_line.
  rewrite (format_pos_proper relative s t Hx Hy Hz).
  rewrite (format_fixed_proper 3 (clamp_color (r s)) (clamp_color (r t)))
    by (rewrite !clamp_color_clamp; now apply clamp_proper).
  rewrite (format_fixed_proper 3 (clamp_color (g s)) (clamp_color (g t)))
    by (rewrite !clamp_color_clamp; now apply clamp_proper).
  rewrite (format_fixed_proper 3 (clamp_color (b s)) (clamp_color (b t)))
    by (rewrite !clamp_color_clamp; now apply clamp_proper).
  rewrite (format_fixed_proper 2 (particle_scale s) (particle_scale t)).
  - reflexivity.
  - unfold particle_scale. rewrite !py_max_min_clamp by lra.
    apply clamp_proper. now rewrite Hs.
Qed.

(** C7, as stated, fails: between the position and the [1] the code writes
    four zeros, not three.  For [splat_a] in relative mode the emitted line
    and the line assembled from the parts the specification lists differ. *)
Lemma command_line_fourth_zero :
  particle_line true splat_a
  = "particle dust{color:[0.500,1.000,0.000],scale:0.50} ~1.235 ~-0.000 ~0.062 0 0 0 0 1 force"
  /\ spec_command_line true splat_a
     = "particle dust{color:[0.500,1.000,0.000],scale:0.50} ~1.235 ~-0.000 ~0.062 0 0 0 1 force"
  /\ particle_line true splat_a <> spec_command_line true splat_a.
Proof.
  assert (H1 : particle_line true splat_a
    = "particle dust{color:[0.500,1.000,0.000],scale:0.50} ~1.235 ~-0.000 ~0.062 0 0 0 0 1 force")
    by (vm_compute; reflexivity).
  assert (H2 : spec_command_line true splat_a
    = "particle dust{color:[0.500,1.000,0.000],scale:0.50} ~1.235 ~-0.000 ~0.062 0 0 0 1 force")
    by (vm_compute; reflexivity).
  split; [exact H1|]. split; [exact H2|].
  rewrite H1, H2. intros H. discriminate H.
Qed.

Lemma format_fixed_between (d : nat) (q : Q) (lo hi : Z) :
  0 <= q ->
  inject_Z lo <= q * inject_Z (10 ^ Z.of_nat d) <= inject_Z hi ->
  numeral_between d lo hi (format_fixed d q).
Proof.
  intros Hq [Hlo Hhi].
  destruct (format_fixed_numeral d q)
    as (sign & ip & fp & Hs & Hsign & Hip & Hdi & Hdf & Hlen & Hval).
  destruct Hsign as [[_ Hneg]|[-> _]]; [lra|].
  exists ip, fp. repeat (split; [assumption|]).
  set (n := (digits_value ip * 10 ^ Z.of_nat d + digits_value fp)%Z) in *.
  rewrite (Qabs_pos q Hq) in Hval.
  apply Qabs_Qle_condition in Hval as [Hv1 Hv2].
  split.
  - assert (H : inject_Z (lo - 1) < inject_Z n).
    { unfold Z.sub. rewrite inject_Z_plus. change (inject_Z (- (1))) with (- (1)). lra. }
    rewrite <- Zlt_Qlt in H. lia.
  - assert (H : inject_Z n < inject_Z (hi + 1)).
    { rewrite inject_Z_plus. change (inject_Z 1) with 1. lra. }
    rewrite <- Zlt_Qlt in H. lia.
Qed.

Lemma clamp_color_range (c : Q) : 0 <= clamp_color c <= 1.
Proof. rewrite clamp_color_clamp. apply clamp_bounds. lra. Qed.

Lemma particle_scale_range (s : GaussianSplat) : 0.1 <= particle_scale s <= 4.0.
Proof. rewrite particle_scale_clamp. apply clamp_bounds. lra. Qed.

Lemma color_numeral (c : Q) :
  numeral_between 3 0 1000 (format_fixed 3 (clamp_color c)).
Proof.
  pose proof (clamp_color_range c) as H.
  apply format_fixed_between; [lra|].
  change (inject_Z (10 ^ Z.of_nat 3)) with 1000.
  change (inject_Z 0) with 0. change (inject_Z 1000) with 1000. lra.
Qed.

Lemma scale_numeral (s : GaussianSplat) :
  numeral_between 2 10 400 (format_fixed 2 (particle_scale s)).
Proof.
  pose proof (particle_scale_range s) as H.
  apply format_fixed_between; [lra|].
  change (inject_Z (10 ^ Z.of_nat 2)) with 100.
  change (inject_Z 10) with 10. change (inject_Z 400) with 400. lra.
Qed.

Lemma scale_numeral_near (s : GaussianSplat) :
  unsigned_numeral_near 2 (clamp (scale s * 50) 0.1 4.0)
    ((1 # 200) + binary64_slack) (format_fixed 2 (particle_scale s)).
Proof.
  destruct (format_fixed_numeral 2 (particle_scale s))
    as (sign & ip & fp & Hs & Hsign & Hip & Hdi & Hdf & Hlen & Hval).
  assert (Hq : 0.1 <= particle_scale s).
  { rewrite particle_scale_clamp. apply clamp_bounds. lra. }
  destruct Hsign as [[_ Hneg]|[-> _]]; [lra|].
  exists ip, fp. repeat (split; [assumption|]).
  set (n := inject_Z (digits_value ip * 10 ^ Z.of_nat 2 + digits_value fp)) in *.
  change (inject_Z (10 ^ Z.of_nat 2)) with 100 in *.
  rewrite (Qabs_pos (particle_scale s)) in Hval by lra.
  rewrite <- particle_scale_clamp.
  apply Qabs_Qle_condition in Hval as [Hv1 Hv2].
  assert (Hslack : 0 <= binary64_slack) by (vm_compute; discriminate).
  assert (Hn : n / 100 == n * (1 # 100)) by (field; lra).
  rewrite Hn. apply Qabs_Qle_condition. split; lra.
Qed.

Lemma coordinate_numeral_format (q : Q) :
  coordinate_numeral q (format_fixed 3 q).
Proof.
  split.
  - intros _. apply format_fixed_numeral.
  - intros H. left. now rewrite (format_fixed_proper 3 q 0 H).
Qed.

(** C7, amended: every command line is, in order, the token
    [particle dust], the block [{color:[R,G,B],scale:S}], the position
    (each coordinate prefixed by [~] in relative mode, plain in absolute
    mode), and the fixed tail [0 0 0 0 1 force]: four zeros, then 1, then
    the force token.  Each colour is the clamped channel written with a
    point and exactly 3 fraction digits, rounded to the nearest.  The scale
    is written without a sign with exactly 2 fraction digits, between 0.10
    and 4.00, at most half a unit of its last digit away from the clamped
    product [scale * 50], up to the rounding of the product.  Each
    coordinate is written with a minus sign when negative and exactly 3
    fraction digits, rounded to the nearest; a zero coordinate is [0.000]
    or [-0.000].  The text is a function of the splat's numeric values when
    no coordinate is zero. *)
Theorem command_line_grammar (relative : bool) (s : GaussianSplat) :
  exists cr cg cb sc px py pz : string,
    particle_line relative s
    = "particle dust{color:[" +:+ cr +:+ "," +:+ cg +:+ "," +:+ cb
        +:+ "],scale:" +:+ sc +:+ "} "
        +:+ (if relative then "~" +:+ px +:+ " ~" +:+ py +:+ " ~" +:+ pz
             else px +:+ " " +:+ py +:+ " " +:+ pz)
        +:+ " 0 0 0 0 1 force"
    /\ fixed_numeral 3 (clamp (r s) 0 1) cr
    /\ fixed_numeral 3 (clamp (g s) 0 1) cg
    /\ fixed_numeral 3 (clamp (b s) 0 1) cb
    /\ numeral_between 2 10 400 sc
    /\ unsigned_numeral_near 2 (clamp (scale s * 50) 0.1 4.0)
         ((1 # 200) + binary64_slack) sc
    /\ coordinate_numeral (x s) px
    /\ coordinate_numeral (y s) py
    /\ coordinate_numeral (z s) pz
    /\ (forall t : GaussianSplat,
          splat_equiv s t ->
          ~ x s == 0 -> ~ y s == 0 -> ~ z s == 0 ->
          particle_line relative t = particle_line relative s).
Proof.
  exists (format_fixed 3 (clamp_color (r s))),
    (format_fixed 3 (clamp_color (g s))),
    (format_fixed 3 (clamp_color (b s))),
    (format_fixed 2 (particle_scale s)),
    (format_fixed 3 (x s)), (format_fixed 3 (y s)), (format_fixed 3 (z s)).
  split.
  { unfold particle_line, format_pos. destruct relative; reflexivity. }
  rewrite !(format_fixed_proper 3 _ _ (clamp_color_clamp _)).
  repeat (split; [apply format_fixed_numeral|]).
  split; [apply scale_numeral|]. split; [apply scale_numeral_near|].
  repeat (split; [apply coordinate_numeral_format|]).
  intros t Ht _ _ _. symmetry. now apply particle_line_proper.
Qed.

(** ** The text of the output *)

Lemma no_newline_app (s t : string) :
  no_newline (s +:+ t) = no_newline s && no_newline t.
Proof.
  unfold no_newline. induction s as [|c s IH]; simpl; [reflexivity|].
  now rewrite IH, andb_assoc.
Qed.

Lemma is_digit_not_newline (c : ascii) :
  is_digit c = true -> negb (Ascii.eqb c "010") = true.
Proof.
  intros H. destruct (Ascii.eqb c "010") eqn:E; [|reflexivity].
  apply Ascii.eqb_eq in E. subst c. discriminate H.
Qed.

Lemma all_digits_no_newline (s : string) :
  all_digits s = true -> no_newline s = true.
Proof.
  unfold all_digits, no_newline. induction (list_ascii_of_string s) as [|c l IH];
    cbn [forallb]; [reflexivity|].
  intros H. apply andb_prop in H as [Hc Hl].
  now rewrite (is_digit_not_newline c Hc), IH.
Qed.

Lemma format_fixed_no_newline (d : nat) (q : Q) :
  no_newline (format_fixed d q) = true.
Proof.
  unfold format_fixed. rewrite !no_newline_app.
  rewrite (all_digits_no_newline _ (int_digits_all_digits _)).
  rewrite (all_digits_no_newline _ (frac_digits_all_digits _ _)).
  now destruct (py_lt q 0).
Qed.

Lemma particle_line_no_newline (relative : bool) (s : GaussianSplat) :
  no_newline (particle_line relative s) = true.
Proof.
  unfold particle_line, format_pos.
  destruct relative; rewrite !no_newline_app, !format_fixed_no_newline; reflexivity.
Qed.

Lemma header_no_newline (n : nat) : forallb no_newline (header n) = true.
Proof.
  unfold header. cbn [forallb]. rewrite !no_newline_app.
  assert (H : all_digits (NilZero.string_of_uint (Nat.to_uint n)) = true).
  { unfold NilZero.string_of_uint.
    destruct (Nat.to_uint n) eqn:E; try reflexivity; rewrite <- E; apply uint_digits. }
  now rewrite (all_digits_no_newline _ H).
Qed.

Lemma split_lines_line (l : string) :
  no_newline l = true -> split_lines l = [l].
Proof.
  unfold no_newline. induction l as [|c l IH]; cbn [list_ascii_of_string forallb split_lines];
    [reflexivity|].
  intros H. apply andb_prop in H as [Hc Hl].
  apply negb_true_iff in Hc. rewrite Hc, (IH Hl). reflexivity.
Qed.

Lemma split_lines_cons (l : string) (t : string) :
  no_newline l = true ->
  split_lines (l +:+ String "010" t) = l :: split_lines t.
Proof.
  unfold no_newline. induction l as [|c l IH]; simpl.
  - reflexivity.
  - intros H. apply andb_prop in H as [Hc Hl].
    apply negb_true_iff in Hc. rewrite Hc, (IH Hl). reflexivity.
Qed.

(** Splitting the joined text gives the lines back. *)
Lemma split_join_lines (l : string) (ls : list string) :
  forallb no_newline (l :: ls) = true ->
  split_lines (join_lines (l :: ls)) = l :: ls.
Proof.
  revert l. induction ls as [|l' ls IH]; intros l H;
    cbn [forallb] in H; apply andb_prop in H as [Hl Hls].
  - cbn [join_lines]. now apply split_lines_line.
  - change (join_lines (l :: l' :: ls))
      with (l +:+ String "010" (join_lines (l' :: ls))).
    rewrite split_lines_cons by exact Hl. now rewrite IH.
Qed.

Lemma mcfunction_lines_no_newline (splats : list GaussianSplat)
    (relative : bool) (min_opacity : Q) :
  forallb no_newline (mcfunction_lines splats relative min_opacity) = true.
Proof.
  unfold mcfunction_lines. rewrite emit_loop_app, forallb_app, header_no_newline.
  cbn [andb]. apply forallb_forall. intros l Hl.
  apply in_map_iff in Hl as (s & <- & _). apply particle_line_no_newline.
Qed.

Lemma generate_mcfunction_lines (splats : list GaussianSplat)
    (relative : bool) (min_opacity : Q) :
  split_lines (generate_mcfunction splats relative min_opacity)
  = mcfunction_lines splats relative min_opacity.
Proof.
  unfold generate_mcfunction.
  pose proof (mcfunction_lines_no_newline splats relative min_opacity) as H.
  destruct (mcfunction_lines splats relative min_opacity) as [|l ls] eqn:E.
  - unfold mcfunction_lines in E. rewrite emit_loop_app in E. discriminate E.
  - now apply split_join_lines.
Qed.

(** C4: the emitter writes a line for a splat exactly when its opacity is at
    least the threshold.  The lines of the returned text are the three header
    lines followed by the command lines of the splats with
    [min_opacity <= opacity], in input order: a splat below the threshold
    gives no line, a splat at the threshold gives one; with threshold 0.1 a
    splat of opacity 0.05 gives no line and a splat of opacity 0.10 gives
    one. *)
Theorem emitter_threshold :
  (forall (splats : list GaussianSplat) (relative : bool) (min_opacity : Q),
      split_lines (generate_mcfunction splats relative min_opacity)
      = header (length splats)
        ++ map (particle_line relative)
             (List.filter (fun s => Qle_bool min_opacity (opacity s)) splats))
  /\ (forall (s : GaussianSplat) (relative : bool) (min_opacity : Q),
        (opacity s < min_opacity ->
         split_lines (generate_mcfunction [s] relative min_opacity) = header 1)
        /\ (min_opacity <= opacity s ->
            split_lines (generate_mcfunction [s] relative min_opacity)
            = header 1 ++ [particle_line relative s]))
  /\ (forall (s : GaussianSplat) (relative : bool),
        (opacity s == 0.05 ->
         split_lines (generate_mcfunction [s] relative 0.1) = header 1)
        /\ (opacity s == 0.10 ->
            split_lines (generate_mcfunction [s] relative 0.1)
            = header 1 ++ [particle_line relative s])).
Proof.
  assert (Hone : forall (s : GaussianSplat) (relative : bool) (min_opacity : Q),
             (opacity s < min_opacity ->
              split_lines (generate_mcfunction [s] relative min_opacity)
              = header 1)
             /\ (min_opacity <= opacity s ->
                 split_lines (generate_mcfunction [s] relative min_opacity)
                 = header 1 ++ [particle_line relative s])).
  { intros s relative min_opacity. rewrite generate_mcfunction_lines.
    unfold mcfunction_lines, emit_step. cbn [fold_left length].
    split; intros H.
    - apply py_lt_true in H. now rewrite H.
    - apply py_lt_false in H. now rewrite H. }
  split; [|split].
  - intros. rewrite generate_mcfunction_lines. unfold mcfunction_lines.
    apply emit_loop_app.
  - exact Hone.
  - intros s relative. split; intros H; apply Hone; rewrite H; lra.
Qed.

(** The end-to-end example of the specification: two splats with opacities
    0.9 and 0.05 and the default threshold 0.1 give the three header lines
    and one command line, for the first splat. *)
Example two_splat_script :
  generate_mcfunction [splat_c; splat_b] true 0.1
  = join_lines
      [ "# Generated by splat2mc";
        "# 2 Gaussian splats";
        "";
        "particle dust{color:[0.100,0.200,0.300],scale:4.00} ~-2.000 ~0.000 ~4.000 0 0 0 0 1 force" ].
Proof. vm_compute. reflexivity. Qed.

(** ** The pipeline on examples *)

(** The end-to-end example of the specification, from the table on: two
    points, one decoding to opacity 0.9 and one to 0.05, with the default
    budget, extent and threshold, give the header and one command line. *)
Example pipeline_two_points :
  fst (convert_ply_to_datapack exp_approx unit first_indices table_two
         5000 10.0 0.1 tt)
  = Ok (join_lines
          [ "# Generated by splat2mc";
            "# 2 Gaussian splats";
            "";
            "particle dust{color:[1.000,1.000,1.000],scale:1.25} ~-1.250 ~-2.500 ~-5.000 0 0 0 0 1 force" ]).
Proof. vm_compute. reflexivity. Qed.

(** A maximum particle count of 0 is not rejected anywhere in the pipeline:
    every splat is dropped and the script is the header alone. *)
Example pipeline_zero_budget :
  fst (convert_ply_to_datapack exp_approx unit first_indices table_two
         0 10.0 0.1 tt)
  = Ok (join_lines [ "# Generated by splat2mc"; "# 0 Gaussian splats"; "" ]).
Proof. vm_compute. reflexivity. Qed.

(** * Further properties of the code *)

(** ** The decoder: rows, failures and the other decoding rules *)

Lemma table_sh_well_formed : table_well_formed table_sh 2.
Proof.
  unfold table_well_formed. split.
  - intros name col H. unfold table_sh in H.
    repeat (rewrite lookup_insert in H; case_decide; [inversion H; reflexivity|]).
    rewrite lookup_empty in H. discriminate.
  - repeat split; intros; eexists; reflexivity.
Qed.

(** X1: on a table as [plyfile] builds it ([n] rows in every column, the
    position fields present, optional field groups complete) the decoder
    does not fail; it returns [n] splats, the [i]-th with the position of
    row [i]. *)
Theorem decoder_returns_rows (np_exp : Q -> Q) (vertex : vertex_table) (n : nat) :
  table_well_formed vertex n ->
  exists (splats : list GaussianSplat) (xs ys zs : list Q),
    load_ply np_exp vertex = Ok splats
    /\ length splats = n
    /\ vertex !! "x" = Some xs /\ vertex !! "y" = Some ys
    /\ vertex !! "z" = Some zs
    /\ forall i s, nth_error splats i = Some s ->
         nth_error xs i = Some (x s) /\ nth_error ys i = Some (y s)
         /\ nth_error zs i = Some (z s).
Proof.
  intros Hwf.
  destruct (load_ply_total np_exp vertex n Hwf) as (splats & Hrun & Hlen & Hpos).
  destruct Hwf as (_ & [xs Ex] & [ys Ey] & [zs Ez] & _).
  exists splats, xs, ys, zs. repeat (split; [assumption|]).
  intros i s Hi. specialize (Hpos i s Hi).
  rewrite Ex, Ey, Ez in Hpos. exact Hpos.
Qed.

(** X1 on the example table. *)
Lemma decoder_returns_rows_witness :
  table_well_formed table_sh 2
  /\ exists (splats : list GaussianSplat) (xs ys zs : list Q),
       load_ply exp_approx table_sh = Ok splats
       /\ length splats = 2%nat
       /\ table_sh !! "x" = Some xs /\ table_sh !! "y" = Some ys
       /\ table_sh !! "z" = Some zs
       /\ forall i s, nth_error splats i = Some s ->
            nth_error xs i = Some (x s) /\ nth_error ys i = Some (y s)
            /\ nth_error zs i = Some (z s).
Proof.
  split; [exact table_sh_well_formed|].
  exact (decoder_returns_rows exp_approx table_sh 2 table_sh_well_formed).
Defined.

Lemma field_raise (vertex : vertex_table) (name : string) :
  vertex !! name = None -> field vertex name = Raise ValueError.
Proof. intros H. unfold field. now rewrite H. Qed.

Lemma field_cases (vertex : vertex_table) (name : string) :
  (exists col, vertex !! name = Some col /\ field vertex name = Ok col)
  \/ (vertex !! name = None /\ field vertex name = Raise ValueError).
Proof. unfold field. destruct (vertex !! name); eauto. Qed.

Lemma decode_color_cases (vertex : vertex_table) (xs : list Q) :
  (exists rgb, decode_color vertex xs = Ok rgb)
  \/ decode_color vertex xs = Raise ValueError.
Proof.
  unfold decode_color.
  destruct (has_field vertex "f_dc_0").
  - destruct (field_cases vertex "f_dc_0") as [(? & _ & ->)|[_ ->]]; [|now right].
    destruct (field_cases vertex "f_dc_1") as [(? & _ & ->)|[_ ->]]; [|now right].
    destruct (field_cases vertex "f_dc_2") as [(? & _ & ->)|[_ ->]]; [|now right].
    left. eexists. reflexivity.
  - destruct (has_field vertex "red"); [|left; eexists; reflexivity].
    destruct (field_cases vertex "red") as [(? & _ & ->)|[_ ->]]; [|now right].
    destruct (field_cases vertex "green") as [(? & _ & ->)|[_ ->]]; [|now right].
    destruct (field_cases vertex "blue") as [(? & _ & ->)|[_ ->]]; [|now right].
    left. eexists. reflexivity.
Qed.

Lemma decode_color_incomplete (vertex : vertex_table) (xs : list Q) :
  (is_Some (vertex !! "f_dc_0")
   /\ (vertex !! "f_dc_1" = None \/ vertex !! "f_dc_2" = None))
  \/ (vertex !! "f_dc_0" = None /\ is_Some (vertex !! "red")
      /\ (vertex !! "green" = None \/ vertex !! "blue" = None)) ->
  decode_color vertex xs = Raise ValueError.
Proof.
  unfold decode_color, has_field.
  intros [[[c0 E0] H]|(E0 & [cr Er] & H)]; rewrite E0.
  - rewrite (proj2 (field_ok _ _ _) E0). cbn [bind].
    destruct (field_cases vertex "f_dc_1") as [(? & E1 & ->)|[_ ->]];
      [|reflexivity]. cbn [bind].
    destruct H as [H|H]; [congruence|]. now rewrite (field_raise _ _ H).
  - rewrite Er, (proj2 (field_ok _ _ _) Er). cbn [bind].
    destruct (field_cases vertex "green") as [(? & E1 & ->)|[_ ->]];
      [|reflexivity]. cbn [bind].
    destruct H as [H|H]; [congruence|]. now rewrite (field_raise _ _ H).
Qed.

Lemma decode_opacity_ok (np_exp : Q -> Q) (vertex : vertex_table) (xs : list Q) :
  exists os, decode_opacity np_exp vertex xs = Ok os.
Proof.
  unfold decode_opacity, has_field, field.
  destruct (vertex !! "opacity"); eexists; reflexivity.
Qed.

Lemma decode_scale_incomplete (np_exp : Q -> Q) (vertex : vertex_table)
    (xs : list Q) :
  is_Some (vertex !! "scale_0") ->
  vertex !! "scale_1" = None \/ vertex !! "scale_2" = None ->
  decode_scale np_exp vertex xs = Raise ValueError.
Proof.
  intros [c0 E0] H. unfold decode_scale, has_field. rewrite E0.
  rewrite (proj2 (field_ok _ _ _) E0). cbn [bind].
  destruct (field_cases vertex "scale_1") as [(? & E1 & ->)|[_ ->]];
    [|reflexivity]. cbn [bind].
  destruct H as [H|H]; [congruence|]. now rewrite (field_raise _ _ H).
Qed.

(** X2: the decoder raises [ValueError] when a position field is missing,
    and also when an optional field group is there in part only: [f_dc_0]
    without [f_dc_1] or [f_dc_2], [red] (in a table without [f_dc_0])
    without [green] or [blue], [scale_0] without [scale_1] or [scale_2].  An
    incomplete group is not replaced by the default. *)
Theorem decoder_missing_field (np_exp : Q -> Q) (vertex : vertex_table) :
  vertex !! "x" = None \/ vertex !! "y" = None \/ vertex !! "z" = None
  \/ (is_Some (vertex !! "f_dc_0")
      /\ (vertex !! "f_dc_1" = None \/ vertex !! "f_dc_2" = None))
  \/ (vertex !! "f_dc_0" = None /\ is_Some (vertex !! "red")
      /\ (vertex !! "green" = None \/ vertex !! "blue" = None))
  \/ (is_Some (vertex !! "scale_0")
      /\ (vertex !! "scale_1" = None \/ vertex !! "scale_2" = None)) ->
  load_ply np_exp vertex = Raise ValueError.
Proof.
  intros H. unfold load_ply.
  destruct (field_cases vertex "x") as [(xs & Ex & ->)|[_ ->]]; [|reflexivity].
  cbn [bind].
  destruct (field_cases vertex "y") as [(ys & Ey & ->)|[_ ->]]; [|reflexivity].
  cbn [bind].
  destruct (field_cases vertex "z") as [(zs & Ez & ->)|[_ ->]]; [|reflexivity].
  cbn [bind].
  destruct H as [H|[H|[H|H]]]; try congruence.
  destruct (decode_color_cases vertex xs) as [[[[r0 g0] b0] Hc]|Hc];
    rewrite Hc; [|reflexivity]. cbn [bind].
  destruct H as [H|[H|[Hs H]]].
  - rewrite decode_color_incomplete in Hc by (left; exact H). discriminate Hc.
  - rewrite decode_color_incomplete in Hc by (right; exact H). discriminate Hc.
  - destruct (decode_opacity_ok np_exp vertex xs) as [os ->]. cbn [bind].
    now rewrite (decode_scale_incomplete np_exp vertex xs Hs H).
Qed.

(** X2 on a table with positions and a red column only. *)
Lemma decoder_missing_field_witness :
  load_ply exp_approx
    (<["x" := [0]]> (<["y" := [0]]> (<["z" := [0]]> (<["red" := [255]]> ∅))))
  = Raise ValueError.
Proof.
  apply decoder_missing_field.
  do 4 right. left. split; [reflexivity|]. split; [eexists; reflexivity|].
  left. reflexivity.
Defined.

Lemma decode_color_rgb (vertex : vertex_table) (xs red green blue : list Q) :
  vertex !! "f_dc_0" = None ->
  vertex !! "red" = Some red -> vertex !! "green" = Some green ->
  vertex !! "blue" = Some blue ->
  decode_color vertex xs
  = Ok (map (fun v => v / 255.0) red,
        map (fun v => v / 255.0) green,
        map (fun v => v / 255.0) blue).
Proof.
  intros H0 Hr Hg Hb. unfold decode_color, has_field, field.
  now rewrite H0, Hr, Hg, Hb.
Qed.

Lemma clamp_inside (v lo hi : Q) : lo <= v <= hi -> clamp v lo hi == v.
Proof.
  intros H. unfold clamp.
  destruct (Qlt_le_dec v lo); [lra|]. destruct (Qlt_le_dec hi v); lra.
Qed.

Lemma byte_fraction (v : Q) : 0 <= v <= 255 -> 0 <= v / 255.0 <= 1.
Proof.
  intros H. split.
  - apply Qle_shift_div_l; lra.
  - apply Qle_shift_div_r; lra.
Qed.

(** X3: in a table without [f_dc_0] but with 8-bit colour fields, every
    decoded channel is [clamp(value / 255.0, 0, 1)] of the value in the same
    row; for a value between 0 and 255 that is [value / 255.0] itself. *)
Theorem rgb_color (np_exp : Q -> Q) (vertex : vertex_table)
    (red green blue : list Q) (splats : list GaussianSplat)
    (i : nat) (s : GaussianSplat) :
  vertex !! "f_dc_0" = None ->
  vertex !! "red" = Some red ->
  vertex !! "green" = Some green ->
  vertex !! "blue" = Some blue ->
  load_ply np_exp vertex = Ok splats ->
  nth_error splats i = Some s ->
  exists v0 v1 v2 : Q,
    nth_error red i = Some v0 /\ nth_error green i = Some v1
    /\ nth_error blue i = Some v2
    /\ r s == clamp (v0 / 255.0) 0 1
    /\ g s == clamp (v1 / 255.0) 0 1
    /\ b s == clamp (v2 / 255.0) 0 1
    /\ (0 <= v0 <= 255 -> r s == v0 / 255.0)
    /\ (0 <= v1 <= 255 -> g s == v1 / 255.0)
    /\ (0 <= v2 <= 255 -> b s == v2 / 255.0).
Proof.
  intros H0 Hr Hg Hb Hrun Hi.
  apply load_ply_inv in Hrun
    as (xs & ys & zs & r0 & g0 & b0 & os & ss & _ & _ & _ & Hc & _ & _ & _ & Hnth).
  rewrite (decode_color_rgb vertex xs red green blue H0 Hr Hg Hb) in Hc.
  inversion Hc; subst r0 g0 b0. clear Hc.
  apply Hnth, splat_at_ok in Hi as (_ & _ & _ & Hsr & Hsg & Hsb & _).
  apply nth_error_map_inv in Hsr as (cr & Hsr & Er).
  apply nth_error_map_inv in Hsr as (v0 & Hv0 & ->).
  apply nth_error_map_inv in Hsg as (cg & Hsg & Eg).
  apply nth_error_map_inv in Hsg as (v1 & Hv1 & ->).
  apply nth_error_map_inv in Hsb as (cb & Hsb & Eb).
  apply nth_error_map_inv in Hsb as (v2 & Hv2 & ->).
  exists v0, v1, v2. rewrite Er, Eg, Eb, !np_clip_clamp by lra.
  repeat (split; [first [assumption | reflexivity]|]).
  repeat split; intros Hv; apply clamp_inside, byte_fraction, Hv.
Qed.

Lemma table_rgb_decoded : load_ply exp_approx table_rgb = Ok decoded_rgb.
Proof. vm_compute. reflexivity. Qed.

(** X3 on the first row of the example table. *)
Lemma rgb_color_witness :
  (table_rgb !! "f_dc_0" = None
   /\ table_rgb !! "red" = Some [255; 0]
   /\ table_rgb !! "green" = Some [51; 300]
   /\ table_rgb !! "blue" = Some [0; 102]
   /\ load_ply exp_approx table_rgb = Ok decoded_rgb
   /\ nth_error decoded_rgb 0
      = Some (mkSplat 0 0 0 (2550 # 2550) (510 # 2550) (0 # 2550) 1 (1 # 100)))
  /\ exists v0 v1 v2 : Q,
       nth_error [255; 0] 0 = Some v0 /\ nth_error [51; 300] 0 = Some v1
       /\ nth_error [0; 102] 0 = Some v2
       /\ 2550 # 2550 == clamp (v0 / 255.0) 0 1
       /\ 510 # 2550 == clamp (v1 / 255.0) 0 1
       /\ 0 # 2550 == clamp (v2 / 255.0) 0 1
       /\ (0 <= v0 <= 255 -> 2550 # 2550 == v0 / 255.0)
       /\ (0 <= v1 <= 255 -> 510 # 2550 == v1 / 255.0)
       /\ (0 <= v2 <= 255 -> 0 # 2550 == v2 / 255.0).
Proof.
  split; [repeat split; (reflexivity || exact table_rgb_decoded)|].
  exact (rgb_color exp_approx table_rgb [255; 0] [51; 300] [0; 102]
           decoded_rgb 0%nat _ eq_refl eq_refl eq_refl eq_refl
           table_rgb_decoded eq_refl).
Defined.

Lemma nth_error_ones_like (a : list Q) (i : nat) (v : Q) :
  nth_error (ones_like a) i = Some v -> v = 1.
Proof. intros H. apply nth_error_In in H. now apply ones_like_In in H. Qed.

(** X4: absent optional fields decode to the defaults, for every splat:
    white when the table has neither [f_dc_0] nor [red], opacity 1 without
    an [opacity] field, scale 0.01 without [scale_0]. *)
Theorem absent_fields_default (np_exp : Q -> Q) (vertex : vertex_table)
    (splats : list GaussianSplat) (i : nat) (s : GaussianSplat) :
  load_ply np_exp vertex = Ok splats ->
  nth_error splats i = Some s ->
  (vertex !! "f_dc_0" = None -> vertex !! "red" = None ->
   r s = 1 /\ g s = 1 /\ b s = 1)
  /\ (vertex !! "opacity" = None -> opacity s = 1)
  /\ (vertex !! "scale_0" = None -> scale s == 0.01).
Proof.
  intros Hrun Hi.
  apply load_ply_inv in Hrun
    as (xs & ys & zs & r0 & g0 & b0 & os & ss & _ & _ & _ & Hc & Ho & Hs & _ & Hnth).
  apply Hnth, splat_at_ok in Hi
    as (_ & _ & _ & Hsr & Hsg & Hsb & Hso & Hss).
  split; [|split].
  - intros H0 Hr. unfold decode_color, has_field in Hc. rewrite H0, Hr in Hc.
    inversion Hc; subst r0 g0 b0.
    apply nth_error_map_inv in Hsr as (cr & Hsr & ->).
    apply nth_error_map_inv in Hsg as (cg & Hsg & ->).
    apply nth_error_map_inv in Hsb as (cb & Hsb & ->).
    apply nth_error_ones_like in Hsr, Hsg, Hsb. subst cr cg cb.
    repeat split; reflexivity.
  - intros H0. unfold decode_opacity, has_field in Ho. rewrite H0 in Ho.
    inversion Ho; subst os. now apply nth_error_ones_like in Hso.
  - intros H0. unfold decode_scale, has_field in Hs. rewrite H0 in Hs.
    inversion Hs; subst ss.
    apply nth_error_map_inv in Hss as (w & Hw & ->).
    apply nth_error_ones_like in Hw. subst w. reflexivity.
Qed.

Lemma table_bare_decoded : load_ply exp_approx table_bare = Ok decoded_bare.
Proof. vm_compute. reflexivity. Qed.

(** X4 on the second row of the table with positions only. *)
Lemma absent_fields_default_witness :
  (load_ply exp_approx table_bare = Ok decoded_bare
   /\ nth_error decoded_bare 1 = Some (mkSplat 1 2 4 1 1 1 1 (1 # 100)))
  /\ (table_bare !! "f_dc_0" = None -> table_bare !! "red" = None ->
      1 = 1 /\ 1 = 1 /\ 1 = 1)
  /\ (table_bare !! "opacity" = None -> 1 = 1)
  /\ (table_bare !! "scale_0" = None -> 1 # 100 == 0.01).
Proof.
  split; [split; [exact table_bare_decoded | reflexivity]|].
  exact (absent_fields_default exp_approx table_bare decoded_bare 1%nat _
           table_bare_decoded eq_refl).
Defined.

Lemma nth_error_combine_inv {B C : Type} (l : list B) (l' : list C) (i : nat)
    (p : B * C) :
  nth_error (combine l l') i = Some p ->
  nth_error l i = Some (fst p) /\ nth_error l' i = Some (snd p).
Proof.
  revert l' i. induction l as [|h t IH]; intros [|h' t'] [|i]; simpl;
    try discriminate.
  - intros H. inversion H; subst. now split.
  - apply IH.
Qed.

Lemma np_add_nth (a c s : list Q) (i : nat) (v : Q) :
  np_add a c = Ok s -> nth_error s i = Some v ->
  exists va vc, nth_error a i = Some va /\ nth_error c i = Some vc
                /\ v = va + vc.
Proof.
  unfold np_add. destruct (Nat.eqb (length a) (length c)); [|discriminate].
  intros H Hi. inversion H; subst s.
  apply nth_error_map_inv in Hi as ([va vc] & Hp & ->).
  apply nth_error_combine_inv in Hp as [Ha Hc]. eauto.
Qed.

(** X5: with an [opacity] field, the decoded opacity of a splat is the
    logistic function [1 / (1 + exp(-v))] of the value [v] in its row, which
    is 0.5 for [v = 0] when [exp 0 = 1]; with the three scale fields, the
    decoded scale is the mean of the exponentials of the three values in its
    row. *)
Theorem logit_and_log_fields (np_exp : Q -> Q) (vertex : vertex_table)
    (splats : list GaussianSplat) (i : nat) (s : GaussianSplat) :
  load_ply np_exp vertex = Ok splats ->
  nth_error splats i = Some s ->
  (forall logits, vertex !! "opacity" = Some logits ->
     exists v, nth_error logits i = Some v
               /\ opacity s = 1 / (1 + np_exp (- v))
               /\ (np_exp (- v) == 1 -> opacity s == 0.5))
  /\ (forall s0, vertex !! "scale_0" = Some s0 ->
       exists (s1 s2 : list Q) (v0 v1 v2 : Q),
         vertex !! "scale_1" = Some s1 /\ vertex !! "scale_2" = Some s2
         /\ nth_error s0 i = Some v0 /\ nth_error s1 i = Some v1
         /\ nth_error s2 i = Some v2
         /\ scale s = (np_exp v0 + np_exp v1 + np_exp v2) / 3).
Proof.
  intros Hrun Hi.
  apply load_ply_inv in Hrun
    as (xs & ys & zs & r0 & g0 & b0 & os & ss & _ & _ & _ & _ & Ho & Hs & _ & Hnth).
  apply Hnth, splat_at_ok in Hi as (_ & _ & _ & _ & _ & _ & Hso & Hss).
  split.
  - intros logits E. unfold decode_opacity, has_field, field in Ho.
    rewrite E in Ho. inversion Ho; subst os.
    apply nth_error_map_inv in Hso as (v & Hv & Ev).
    exists v. split; [exact Hv|]. split; [exact Ev|].
    intros H1. rewrite Ev. unfold sigmoid. rewrite H1. reflexivity.
  - intros s0 E0. unfold decode_scale, has_field in Hs. rewrite E0 in Hs.
    apply bind_ok in Hs as (c0 & H0 & Hs).
    apply bind_ok in Hs as (s1 & H1 & Hs).
    apply bind_ok in Hs as (s2 & H2 & Hs).
    apply bind_ok in Hs as (s01 & H01 & Hs).
    apply bind_ok in Hs as (s012 & H012 & Hs).
    apply field_ok in H0, H1, H2. rewrite E0 in H0. inversion H0; subst c0.
    inversion Hs; subst ss.
    apply nth_error_map_inv in Hss as (w & Hw & ->).
    destruct (np_add_nth _ _ _ _ _ H012 Hw) as (w01 & e2 & Hw01 & He2 & ->).
    destruct (np_add_nth _ _ _ _ _ H01 Hw01) as (e0 & e1 & He0 & He1 & ->).
    apply nth_error_map_inv in He0 as (v0 & Hv0 & ->).
    apply nth_error_map_inv in He1 as (v1 & Hv1 & ->).
    apply nth_error_map_inv in He2 as (v2 & Hv2 & ->).
    exists s1, s2, v0, v1, v2. repeat (split; [assumption|]). reflexivity.
Qed.

(** X5 on the first row of [table_sh], whose logit is 0 and whose log
    scales are 0. *)
Lemma logit_and_log_fields_witness :
  (load_ply exp_approx table_sh = Ok decoded_sh
   /\ nth_error decoded_sh 0
      = Some (mkSplat 1 0 (-1) 0.500000000000000000 0.782094791773878140
                0.217905208226121860 (1 # 2) (3 # 3)))
  /\ (forall logits, table_sh !! "opacity" = Some logits ->
       exists v, nth_error logits 0 = Some v
                 /\ 1 # 2 = 1 / (1 + exp_approx (- v))
                 /\ (exp_approx (- v) == 1 -> 1 # 2 == 0.5))
  /\ (forall s0, table_sh !! "scale_0" = Some s0 ->
       exists (s1 s2 : list Q) (v0 v1 v2 : Q),
         table_sh !! "scale_1" = Some s1 /\ table_sh !! "scale_2" = Some s2
         /\ nth_error s0 0 = Some v0 /\ nth_error s1 0 = Some v1
         /\ nth_error s2 0 = Some v2
         /\ 3 # 3 = (exp_approx v0 + exp_approx v1 + exp_approx v2) / 3).
Proof.
  assert (Hrun : load_ply exp_approx table_sh = Ok decoded_sh)
    by (vm_compute; reflexivity).
  split; [split; [exact Hrun | reflexivity]|].
  exact (logit_and_log_fields exp_approx table_sh decoded_sh 0%nat _ Hrun eq_refl).
Defined.

(** ** The normalizer: flat clouds *)

Lemma spec_max_range_bounds (s0 : GaussianSplat) (rest : list GaussianSplat) :
  let splats := s0 :: rest in
  0 < spec_max_range splats
  /\ spec_range (map x splats) <= spec_max_range splats
  /\ spec_range (map y splats) <= spec_max_range splats
  /\ spec_range (map z splats) <= spec_max_range splats.
Proof.
  cbv zeta. unfold spec_max_range. cbn [map].
  pose proof (spec_range_pos (x s0) (map x rest)).
  pose proof (Q.le_max_l (Qmax (spec_range (x s0 :: map x rest))
                            (spec_range (y s0 :: map y rest)))
                         (spec_range (z s0 :: map z rest))).
  pose proof (Q.le_max_r (Qmax (spec_range (x s0 :: map x rest))
                            (spec_range (y s0 :: map y rest)))
                         (spec_range (z s0 :: map z rest))).
  pose proof (Q.le_max_l (spec_range (x s0 :: map x rest))
                         (spec_range (y s0 :: map y rest))).
  pose proof (Q.le_max_r (spec_range (x s0 :: map x rest))
                         (spec_range (y s0 :: map y rest))).
  repeat split; lra.
Qed.

Lemma scale_factor_times_range (target_size : Q) (splats : list GaussianSplat) :
  0 < spec_max_range splats ->
  spec_scale_factor target_size splats * spec_max_range splats == target_size.
Proof.
  intros H. unfold spec_scale_factor. fold (spec_max_range splats). field. lra.
Qed.

(** The output of the normalizer on a non-empty cloud, with what is known of
    the centre and the scale factor. *)
Lemma normalize_run (s0 : GaussianSplat) (rest : list GaussianSplat)
    (target_size : Q) (center : bool) :
  let splats := s0 :: rest in
  exists cx cy cz sf : Q,
    normalize_splats splats target_size center
    = Ok (map (transform cx cy cz sf) splats)
    /\ cx == spec_center center (map x splats)
    /\ cy == spec_center center (map y splats)
    /\ cz == spec_center center (map z splats)
    /\ sf == spec_scale_factor target_size splats
    /\ sf * spec_max_range splats == target_size.
Proof.
  cbv zeta.
  destruct (normalize_nonempty s0 rest target_size center)
    as (cx & cy & cz & sf & Hrun & Hcx & Hcy & Hcz & Hsf).
  exists cx, cy, cz, sf. repeat (split; [assumption|]).
  rewrite Hsf. apply scale_factor_times_range.
  apply (spec_max_range_bounds s0 rest).
Qed.

Lemma spec_max_range_flat_small (s0 : GaussianSplat) (rest : list GaussianSplat) :
  let splats := s0 :: rest in
  extent (map x splats) == 0 \/ extent (map y splats) == 0
  \/ extent (map z splats) == 0 ->
  extent (map x splats) <= 1 -> extent (map y splats) <= 1 ->
  extent (map z splats) <= 1 ->
  spec_max_range splats == 1.
Proof.
  cbv zeta. intros Hflat Hx Hy Hz.
  assert (Hr : forall l, extent l <= 1 -> spec_range l <= 1
                 /\ (extent l == 0 -> spec_range l == 1)).
  { intros l Hl. unfold extent in Hl. unfold spec_range, extent.
    destruct (Qeq_dec (highest l - lowest l) 0); split; intros; lra. }
  destruct (Hr _ Hx) as [Rx Fx]. destruct (Hr _ Hy) as [Ry Fy].
  destruct (Hr _ Hz) as [Rz Fz].
  destruct (spec_max_range_bounds s0 rest) as (_ & Bx & By & Bz).
  assert (Hle : spec_max_range (s0 :: rest) <= 1).
  { unfold spec_max_range. apply Q.max_lub; [apply Q.max_lub|]; assumption. }
  destruct Hflat as [H|[H|H]];
    [specialize (Fx H) | specialize (Fy H) | specialize (Fz H)]; lra.
Qed.

(** X8: a cloud that is flat on some axis and at most one unit wide on the
    others is not fitted to the target size: the flat axis counts as a range
    of 1, so the scale factor is [target_size] itself.  Every splat is moved
    by the centre and then multiplied by [target_size], and so is its
    scale. *)
Theorem flat_cloud_scaled_by_target (s0 : GaussianSplat)
    (rest : list GaussianSplat) (target_size : Q) (center : bool) :
  let splats := s0 :: rest in
  extent (map x splats) == 0 \/ extent (map y splats) == 0
  \/ extent (map z splats) == 0 ->
  extent (map x splats) <= 1 -> extent (map y splats) <= 1 ->
  extent (map z splats) <= 1 ->
  exists out : list GaussianSplat,
    normalize_splats splats target_size center = Ok out
    /\ Forall2
         (fun s o =>
            x o == (x s - spec_center center (map x splats)) * target_size
            /\ y o == (y s - spec_center center (map y splats)) * target_size
            /\ z o == (z s - spec_center center (map z splats)) * target_size
            /\ scale o == scale s * target_size)
         splats out.
Proof.
  cbv zeta. intros Hflat Hx Hy Hz.
  destruct (normalize_run s0 rest target_size center)
    as (cx & cy & cz & sf & Hrun & Hcx & Hcy & Hcz & _ & HM).
  rewrite (spec_max_range_flat_small s0 rest Hflat Hx Hy Hz) in HM.
  assert (Hsf : sf == target_size) by (rewrite <- HM; ring).
  eexists. split; [exact Hrun|].
  apply Forall2_map_r. intros s. unfold transform. cbn [x y z scale].
  rewrite Hsf, Hcx, Hcy, Hcz. repeat split; reflexivity.
Qed.

(** X8 on the two splats in a plane. *)
Lemma flat_cloud_scaled_by_target_witness :
  ((extent (map x [flat_a; flat_b]) == 0 \/ extent (map y [flat_a; flat_b]) == 0
    \/ extent (map z [flat_a; flat_b]) == 0)
   /\ extent (map x [flat_a; flat_b]) <= 1
   /\ extent (map y [flat_a; flat_b]) <= 1
   /\ extent (map z [flat_a; flat_b]) <= 1)
  /\ exists out : list GaussianSplat,
       normalize_splats [flat_a; flat_b] 10 true = Ok out
       /\ Forall2
            (fun s o =>
               x o == (x s - spec_center true (map x [flat_a; flat_b])) * 10
               /\ y o == (y s - spec_center true (map y [flat_a; flat_b])) * 10
               /\ z o == (z s - spec_center true (map z [flat_a; flat_b])) * 10
               /\ scale o == scale s * 10)
            [flat_a; flat_b] out.
Proof.
  assert (Hz : extent (map z [flat_a; flat_b]) == 0) by reflexivity.
  assert (H1 : extent (map x [flat_a; flat_b]) <= 1) by (vm_compute; discriminate).
  assert (H2 : extent (map y [flat_a; flat_b]) <= 1) by (vm_compute; discriminate).
  assert (H3 : extent (map z [flat_a; flat_b]) <= 1) by (vm_compute; discriminate).
  split; [repeat split; auto|].
  apply (flat_cloud_scaled_by_target flat_a [flat_b] 10 true); auto.
Defined.

(** ** The selector: what is kept and what is dropped *)

Lemma sorted_firstn_skipn_cross (splats : list GaussianSplat) (n : nat)
    (s d : GaussianSplat) :
  In s (firstn n (sorted_desc opacity splats)) ->
  In d (skipn n (sorted_desc opacity splats)) ->
  opacity d <= opacity s.
Proof.
  intros Hs Hd.
  pose proof (sorted_desc_sorted opacity splats) as Hsorted.
  rewrite <- (firstn_skipn n (sorted_desc opacity splats)) in Hsorted.
  exact (StronglySorted_app_cross _ _ _ Hsorted s d Hs Hd).
Qed.

(** X10: under the by-opacity policy the selector splits the input into the
    splats it returns and the splats it drops, losing and inventing none,
    and no dropped splat is more opaque than a returned one.  For a
    non-negative maximum count it returns [min(max_count, n)] splats; for a
    negative one it drops the [-max_count] least opaque and returns the
    rest. *)
Theorem by_opacity_partition (rng : Type) (np_random_choice : sampler rng)
    (splats : list GaussianSplat) (max_count : Z) (gen : rng) :
  exists out dropped : list GaussianSplat,
    downsample_splats rng np_random_choice splats max_count "opacity" gen
    = (Ok out, gen)
    /\ Permutation splats (out ++ dropped)
    /\ (forall s d, In s out -> In d dropped -> opacity d <= opacity s)
    /\ length out
       = (if (0 <=? max_count)%Z
          then Nat.min (Z.to_nat max_count) (length splats)
          else Z.to_nat (Z.of_nat (length splats) + max_count)).
Proof.
  destruct (Z.le_gt_cases (Z.of_nat (length splats)) max_count) as [Hle|Hgt].
  - exists splats, []. split; [now apply downsample_short|].
    split; [now rewrite app_nil_r|]. split; [intros s d _ []|].
    rewrite (proj2 (Z.leb_le 0 max_count)) by lia. lia.
  - rewrite downsample_opacity by exact Hgt. unfold py_slice_to.
    rewrite (sorted_desc_length opacity splats).
    set (m := if (0 <=? max_count)%Z then Z.to_nat max_count
              else Z.to_nat (Z.of_nat (length splats) + max_count)).
    exists (firstn m (sorted_desc opacity splats)),
           (skipn m (sorted_desc opacity splats)).
    split; [unfold m; now destruct (0 <=? max_count)%Z|].
    split; [rewrite firstn_skipn; symmetry; apply sorted_desc_perm|].
    split; [intros s d; apply sorted_firstn_skipn_cross|].
    rewrite length_firstn, sorted_desc_length. unfold m.
    destruct (0 <=? max_count)%Z eqn:E; [apply Z.leb_le in E | apply Z.leb_gt in E];
      lia.
Qed.

(** X11: under any other method than ["opacity"], for an input longer than
    the maximum count, when the sampler returns indices that are positions of
    the input the selector returns the splats at those positions, in the
    order drawn and unchanged, and the generator is left in the sampler's
    new state. *)
Theorem sampled_selection (rng : Type) (np_random_choice : sampler rng)
    (splats : list GaussianSplat) (max_count : Z) (method : string)
    (gen gen' : rng) (idxs : list nat) :
  method <> "opacity" ->
  (max_count < Z.of_nat (length splats))%Z ->
  np_random_choice (length splats) max_count false gen = (Ok idxs, gen') ->
  Forall (fun i => (i < length splats)%nat) idxs ->
  exists out : list GaussianSplat,
    downsample_splats rng np_random_choice splats max_count method gen
    = (Ok out, gen')
    /\ Forall2 (fun i s => nth_error splats i = Some s) idxs out.
Proof.
  intros Hm Hn Hdraw Hidx.
  destruct (try_map_index_total splats idxs Hidx) as (out & Hout & Hsel).
  exists out. split; [|exact Hsel].
  rewrite downsample_other by assumption. rewrite Hdraw. cbn [fst snd bind].
  now rewrite Hout.
Qed.

(** X11 on three splats, maximum count 2 and the stand-in sampler. *)
Lemma sampled_selection_witness :
  ("random" <> "opacity"
   /\ (2 < Z.of_nat (length [splat_b; splat_a; splat_c]))%Z
   /\ first_indices (length [splat_b; splat_a; splat_c]) 2%Z false tt
      = (Ok [0%nat; 1%nat], tt)
   /\ Forall (fun i => (i < length [splat_b; splat_a; splat_c])%nat)
             [0%nat; 1%nat])
  /\ exists out : list GaussianSplat,
       downsample_splats unit first_indices [splat_b; splat_a; splat_c] 2
         "random" tt = (Ok out, tt)
       /\ Forall2 (fun i s => nth_error [splat_b; splat_a; splat_c] i = Some s)
                  [0%nat; 1%nat] out.
Proof.
  assert (Hidx : Forall (fun i => (i < length [splat_b; splat_a; splat_c])%nat)
                        [0%nat; 1%nat])
    by (repeat constructor; simpl; lia).
  split; [split; [discriminate|]; split; [simpl; lia|]; split;
           [reflexivity | exact Hidx]|].
  apply (sampled_selection unit first_indices [splat_b; splat_a; splat_c] 2
           "random" tt tt [0%nat; 1%nat]);
    [discriminate | simpl; lia | reflexivity | exact Hidx].
Defined.

(** ** The emitter: values the engine accepts, and the header *)

(** X12: whatever the values of a splat, the command line written for it
    carries colour channels between 0.000 and 1.000 and a scale between 0.10
    and 4.00, each written without a sign: the emitter never hands the
    engine a colour or a particle size outside these ranges. *)
Theorem emitted_values_in_range (relative : bool) (s : GaussianSplat) :
  exists cr cg cb sc : string,
    particle_line relative s
    = "particle dust{color:[" +:+ cr +:+ "," +:+ cg +:+ "," +:+ cb
        +:+ "],scale:" +:+ sc +:+ "} " +:+ format_pos relative s
        +:+ " 0 0 0 0 1 force"
    /\ numeral_between 3 0 1000 cr
    /\ numeral_between 3 0 1000 cg
    /\ numeral_between 3 0 1000 cb
    /\ numeral_between 2 10 400 sc.
Proof.
  eexists _, _, _, _. split; [reflexivity|].
  repeat split; first [apply color_numeral | apply scale_numeral].
Qed.

Lemma filter_all {A : Type} (f : A -> bool) (l : list A) :
  (forall a, In a l -> f a = true) -> List.filter f l = l.
Proof.
  induction l as [|a l IH]; intros H; simpl; [reflexivity|].
  rewrite (H a (or_introl eq_refl)), IH; [reflexivity|].
  intros a' Ha'. apply H. now right.
Qed.

Lemma filter_none {A : Type} (f : A -> bool) (l : list A) :
  (forall a, In a l -> f a = false) -> List.filter f l = [].
Proof.
  induction l as [|a l IH]; intros H; simpl; [reflexivity|].
  rewrite (H a (or_introl eq_refl)). apply IH.
  intros a' Ha'. apply H. now right.
Qed.

Lemma script_lines (splats : list GaussianSplat) (relative : bool)
    (min_opacity : Q) :
  split_lines (generate_mcfunction splats relative min_opacity)
  = header (length splats)
    ++ map (particle_line relative)
         (List.filter (fun s => Qle_bool min_opacity (opacity s)) splats).
Proof.
  rewrite generate_mcfunction_lines. unfold mcfunction_lines.
  apply emit_loop_app.
Qed.

(** X13: the threshold is not checked against [[0, 1]].  For splats that
    satisfy the decoder's invariant, a threshold of 0 or less hides nothing
    (one command line per splat, in input order) and a threshold above 1
    hides everything (the script is the header alone). *)
Theorem threshold_extremes (splats : list GaussianSplat) (relative : bool)
    (min_opacity : Q) :
  Forall splat_in_range splats ->
  (min_opacity <= 0 ->
   split_lines (generate_mcfunction splats relative min_opacity)
   = header (length splats) ++ map (particle_line relative) splats)
  /\ (1 < min_opacity ->
      split_lines (generate_mcfunction splats relative min_opacity)
      = header (length splats)).
Proof.
  intros Hinv. rewrite List.Forall_forall in Hinv.
  rewrite script_lines. split; intros Hthr.
  - rewrite filter_all; [reflexivity|].
    intros s Hs. destruct (Hinv s Hs) as (_ & _ & _ & [Ho _] & _).
    apply Qle_bool_iff. lra.
  - rewrite filter_none; [now rewrite app_nil_r|].
    intros s Hs. destruct (Hinv s Hs) as (_ & _ & _ & [_ Ho] & _).
    destruct (Qle_bool min_opacity (opacity s)) eqn:E; [|reflexivity].
    apply Qle_bool_iff in E. lra.
Qed.

Lemma decoded_sh_in_range : Forall splat_in_range decoded_sh.
Proof.
  repeat constructor; vm_compute; discriminate.
Qed.

(** X13 on the splats decoded from the example table, with threshold 0. *)
Lemma threshold_extremes_witness :
  Forall splat_in_range decoded_sh
  /\ (0 <= 0 ->
      split_lines (generate_mcfunction decoded_sh true 0)
      = header (length decoded_sh) ++ map (particle_line true) decoded_sh)
  /\ (1 < 0 ->
      split_lines (generate_mcfunction decoded_sh true 0)
      = header (length decoded_sh)).
Proof.
  split; [exact decoded_sh_in_range|].
  exact (threshold_extremes decoded_sh true 0 decoded_sh_in_range).
Defined.

Lemma nat_uint_acc_value (u : Decimal.uint) (acc : nat) :
  Z.of_nat (Nat.of_uint_acc u acc)
  = fold_left (fun a c => (10 * a + digit_value c)%Z)
      (list_ascii_of_string (NilEmpty.string_of_uint u)) (Z.of_nat acc).
Proof.
  revert acc. induction u; intros acc;
    cbn [Nat.of_uint_acc NilEmpty.string_of_uint list_ascii_of_string fold_left];
    try reflexivity; rewrite IHu; f_equal;
    rewrite ?Nat2Z.inj_succ, Nat.tail_mul_spec, Nat2Z.inj_mul;
    unfold digit_value; vm_compute (Z.of_nat (nat_of_ascii _));
    vm_compute (Z.of_nat 10); lia.
Qed.

Lemma count_text_value (n : nat) :
  all_digits (NilZero.string_of_uint (Nat.to_uint n)) = true
  /\ digits_value (NilZero.string_of_uint (Nat.to_uint n)) = Z.of_nat n.
Proof.
  pose proof (DecimalNat.Unsigned.of_to n) as H.
  apply (f_equal Z.of_nat) in H. unfold Nat.of_uint in H.
  rewrite nat_uint_acc_value in H. change (Z.of_nat 0) with 0%Z in H.
  unfold NilZero.string_of_uint.
  destruct (Nat.to_uint n) eqn:E;
    (split; [try reflexivity; rewrite <- E at 1; rewrite E; apply uint_digits
            | exact H]).
Qed.

(** X14: the second header line gives, in decimal, the number of splats
    handed to the emitter, those below the threshold included, while the
    script has one command line for each splat at or above the threshold:
    three header lines and then as many lines as visible splats. *)
Theorem header_counts_all_splats (splats : list GaussianSplat)
    (relative : bool) (min_opacity : Q) :
  exists (count : string) (commands : list string),
    split_lines (generate_mcfunction splats relative min_opacity)
    = [ "# Generated by splat2mc";
        "# " +:+ count +:+ " Gaussian splats";
        "" ] ++ commands
    /\ all_digits count = true
    /\ digits_value count = Z.of_nat (length splats)
    /\ length commands
       = length (List.filter (fun s => Qle_bool min_opacity (opacity s)) splats).
Proof.
  destruct (count_text_value (length splats)) as [Hd Hv].
  eexists _, _. split; [apply script_lines|].
  split; [exact Hd|]. split; [exact Hv|]. apply length_map.
Qed.

(** ** The datapack: names and files *)

Lemma sanitized_char_safe (c : ascii) :
  is_safe_char (keep_or_underscore (py_lower_char c)) = true.
Proof. destruct c as [[] [] [] [] [] [] [] []]; vm_compute; reflexivity. Qed.

Lemma safe_char_kept (c : ascii) :
  is_safe_char c = true -> keep_or_underscore (py_lower_char c) = c.
Proof.
  destruct c as [[] [] [] [] [] [] [] []]; vm_compute; intros H;
    first [reflexivity | discriminate H].
Qed.

Lemma kept_char_safe (c : ascii) :
  keep_or_underscore (py_lower_char c) = c -> is_safe_char c = true.
Proof.
  destruct c as [[] [] [] [] [] [] [] []]; vm_compute; intros H;
    first [reflexivity | discriminate H].
Qed.

Lemma safe_name_cons (c : ascii) (s : string) :
  safe_name (String c s)
  = String (keep_or_underscore (py_lower_char c)) (safe_name s).
Proof. reflexivity. Qed.

Lemma safe_name_length (name : string) :
  String.length (safe_name name) = String.length name.
Proof.
  induction name as [|c s IH]; [reflexivity|].
  rewrite safe_name_cons. cbn [String.length]. now rewrite IH.
Qed.

Lemma safe_name_safe (name : string) : safe_text (safe_name name).
Proof.
  unfold safe_text. induction name as [|c s IH]; [reflexivity|].
  rewrite safe_name_cons. cbn [list_ascii_of_string forallb].
  now rewrite sanitized_char_safe, IH.
Qed.

Lemma safe_name_fixed (name : string) :
  safe_name name = name <-> safe_text name.
Proof.
  unfold safe_text. induction name as [|c s IH]; [now split|].
  rewrite safe_name_cons. cbn [list_ascii_of_string forallb]. split.
  - intros H. inversion H as [[Hc Hs]]. rewrite Hc, Hs.
    rewrite (kept_char_safe c Hc). apply IH. exact Hs.
  - intros H. apply andb_prop in H as [Hc Hs].
    rewrite (safe_char_kept c Hc). f_equal. apply IH. exact Hs.
Qed.

(** X15: for a name of ASCII characters, the sanitized name has the length
    of the name and consists of lower-case letters, digits and underscores
    only; a name that already has this form, and no other, is left as it
    is, so sanitizing twice is sanitizing once. *)
Theorem safe_name_form (name : string) :
  ascii_only name ->
  String.length (safe_name name) = String.length name
  /\ safe_text (safe_name name)
  /\ (safe_name name = name <-> safe_text name)
  /\ safe_name (safe_name name) = safe_name name.
Proof.
  intros _. split; [apply safe_name_length|].
  split; [apply safe_name_safe|]. split; [apply safe_name_fixed|].
  apply safe_name_fixed, safe_name_safe.
Qed.

(** X15 on a name with capitals, a space, a dash and a dot. *)
Lemma safe_name_form_witness :
  (ascii_only "My Scene-01.v2"
   /\ safe_name "My Scene-01.v2" = "my_scene_01_v2")
  /\ String.length (safe_name "My Scene-01.v2") = String.length "My Scene-01.v2"
  /\ safe_text (safe_name "My Scene-01.v2")
  /\ (safe_name "My Scene-01.v2" = "My Scene-01.v2"
      <-> safe_text "My Scene-01.v2")
  /\ safe_name (safe_name "My Scene-01.v2") = safe_name "My Scene-01.v2".
Proof.
  split; [split; reflexivity|].
  apply (safe_name_form "My Scene-01.v2"). reflexivity.
Defined.

Lemma file_content_app (a b : list event) (p : path) :
  file_content (a ++ b) p
  = match file_content b p with
    | Some c => Some c
    | None => file_content a p
    end.
Proof.
  induction a as [|e a IH]; cbn [app file_content].
  - now destruct (file_content b p).
  - rewrite IH. now destruct (file_content b p).
Qed.

Lemma file_content_written (es : list event) (p : path) (c : string) :
  file_content es p = Some c -> In (WriteText p c) es.
Proof.
  induction es as [|e es IH]; cbn [file_content]; [discriminate|].
  destruct (file_content es p) as [c'|].
  - intros H. right. now apply IH.
  - destruct e as [t|t|q|q c']; try discriminate.
    case_bool_decide as Hq; [|discriminate].
    intros H. inversion H. subst. now left.
Qed.

Lemma string_app_inv_tail (s1 s2 t : string) :
  s1 +:+ t = s2 +:+ t -> s1 = s2.
Proof.
  intros H.
  assert (Hl : list_ascii_of_string s1 ++ list_ascii_of_string t
               = list_ascii_of_string s2 ++ list_ascii_of_string t).
  { assert (Happ : forall a b, list_ascii_of_string (a +:+ b)
                    = list_ascii_of_string a ++ list_ascii_of_string b).
    { intros a b. induction a as [|c a IH]; [reflexivity|].
      cbn. now rewrite <- IH. }
    rewrite <- !Happ. now rewrite H. }
  apply app_inv_tail in Hl.
  rewrite <- (string_of_list_ascii_of_string s1).
  rewrite <- (string_of_list_ascii_of_string s2). now rewrite Hl.
Qed.

Lemma path_join_inj (p : path) (a b : string) : p </> a = p </> b -> a = b.
Proof.
  unfold path_join. intros H. apply app_inv_head in H. now inversion H.
Qed.

Lemma path_join_length (p : path) (a : string) :
  length (p </> a) = S (length p).
Proof. unfold path_join. rewrite length_app. cbn. lia. Qed.

Lemma parent_join (p : path) (a : string) : parent (p </> a) = p.
Proof. unfold parent, path_join. apply removelast_last. Qed.

Lemma datapack_written (name content : string) (output_dir : path) :
  let datapack_dir := output_dir </> ("splat_" +:+ safe_name name) in
  let functions_dir := datapack_dir </> "data" </> "splats" </> "function" in
  exists writes,
    snd (generate_datapack name content output_dir)
    = MkdirParents functions_dir :: writes
    /\ List.Forall
         (fun e => exists p c,
            e = WriteText p c /\ below datapack_dir p
            /\ below (parent p) functions_dir)
         writes.
Proof.
  cbv zeta. unfold generate_datapack. cbn [snd].
  set (dir := output_dir </> ("splat_" +:+ safe_name name)).
  eexists. split; [reflexivity|].
  repeat (apply List.Forall_cons;
          [eexists; eexists; split; [reflexivity|]; rewrite parent_join;
           split; unfold path_join; rewrite <- ?app_assoc;
           first [eexists; reflexivity | exists []; now rewrite app_nil_r]|]).
  apply List.Forall_nil.
Qed.

Lemma datapack_below (name content : string) (output_dir : path)
    (p : path) (c : string) :
  In (WriteText p c) (snd (generate_datapack name content output_dir)) ->
  below (output_dir </> ("splat_" +:+ safe_name name)) p.
Proof.
  destruct (datapack_written name content output_dir) as (writes & -> & H).
  intros [Hin|Hin]; [discriminate Hin|].
  rewrite List.Forall_forall in H.
  destruct (H _ Hin) as (q & c' & E & Hb & _). inversion E. now subst.
Qed.

Lemma datapack_contents (name content : string) (output_dir : path) :
  let safe := safe_name name in
  let datapack_dir := output_dir </> ("splat_" +:+ safe) in
  let functions_dir := datapack_dir </> "data" </> "splats" </> "function" in
  let written := snd (generate_datapack name content output_dir) in
  file_content written (datapack_dir </> "pack.mcmeta")
  = Some (pack_mcmeta_text name)
  /\ file_content written (functions_dir </> "help.mcfunction")
     = Some (help_text safe)
  /\ file_content written (functions_dir </> (safe +:+ ".mcfunction"))
     = Some (if String.eqb safe "help" then help_text safe else content).
Proof.
  cbv zeta. unfold generate_datapack. cbn [fst snd].
  set (safe := safe_name name).
  set (dir := output_dir </> ("splat_" +:+ safe)).
  set (fdir := dir </> "data" </> "splats" </> "function").
  assert (Hlen : length fdir = S (S (S (length dir)))).
  { unfold fdir. now rewrite !path_join_length. }
  assert (Hpm : forall a b, dir </> a <> fdir </> b).
  { intros a b H. apply (f_equal (@length string)) in H.
    rewrite !path_join_length, Hlen in H. lia. }
  cbn [file_content].
  split.
  { rewrite !bool_decide_eq_false_2
      by (intros H; symmetry in H; now apply Hpm in H).
    now rewrite bool_decide_eq_true_2. }
  split.
  { now rewrite bool_decide_eq_true_2. }
  destruct (String.eqb safe "help") eqn:E.
  - apply String.eqb_eq in E. rewrite E. now rewrite bool_decide_eq_true_2.
  - apply String.eqb_neq in E.
    rewrite bool_decide_eq_false_2.
    + rewrite bool_decide_eq_true_2 by reflexivity. reflexivity.
    + intros H. apply path_join_inj in H.
      apply E. symmetry.
      apply (string_app_inv_tail _ _ ".mcfunction"). exact H.
Qed.

Lemma datapack_script (name content : string) (output_dir : path) :
  safe_name name <> "help" ->
  file_content (snd (generate_datapack name content output_dir))
    (script_file output_dir name)
  = Some content.
Proof.
  intros H.
  destruct (datapack_contents name content output_dir) as (_ & _ & Hs).
  unfold script_file. rewrite Hs.
  now rewrite (proj2 (String.eqb_neq _ _) H).
Qed.

(** X16: the files of a datapack, for a name of ASCII characters.  The
    directory returned is [output_dir/splat_<safe name>].  One directory is
    made, with its missing ancestors: the functions directory.  Every file
    is then written inside the datapack directory, into a directory that
    this call has made.  Afterwards [pack.mcmeta] holds the description with
    the name as given and [help.mcfunction] the two help lines, and the file
    [<safe name>.mcfunction] holds the script, unless the sanitized name is
    [help]: then the script was overwritten by the help lines. *)
Theorem datapack_files (name mcfunction_content : string) (output_dir : path) :
  ascii_only name ->
  let safe := safe_name name in
  let datapack_dir := output_dir </> ("splat_" +:+ safe) in
  let functions_dir := datapack_dir </> "data" </> "splats" </> "function" in
  let written := snd (generate_datapack name mcfunction_content output_dir) in
  fst (generate_datapack name mcfunction_content output_dir) = datapack_dir
  /\ (exists writes,
        written = MkdirParents functions_dir :: writes
        /\ List.Forall
             (fun e => exists p c,
                e = WriteText p c /\ below datapack_dir p
                /\ below (parent p) functions_dir)
             writes)
  /\ file_content written (datapack_dir </> "pack.mcmeta")
     = Some (pack_mcmeta_text name)
  /\ file_content written (functions_dir </> "help.mcfunction")
     = Some (help_text safe)
  /\ file_content written (functions_dir </> (safe +:+ ".mcfunction"))
     = Some (if String.eqb safe "help" then help_text safe
             else mcfunction_content).
Proof.
  intros _. cbv zeta. split; [reflexivity|].
  split; [apply datapack_written|]. apply datapack_contents.
Qed.

(** X16 on the name [My Scene] with a one-line script. *)
Lemma datapack_files_witness :
  (ascii_only "My Scene" /\ safe_name "My Scene" = "my_scene")
  /\ fst (generate_datapack "My Scene" "say hi" ["out"])
     = ["out"; "splat_my_scene"]
  /\ (exists writes,
        snd (generate_datapack "My Scene" "say hi" ["out"])
        = MkdirParents ["out"; "splat_my_scene"; "data"; "splats"; "function"]
          :: writes
        /\ List.Forall
             (fun e => exists p c,
                e = WriteText p c /\ below ["out"; "splat_my_scene"] p
                /\ below (parent p)
                     ["out"; "splat_my_scene"; "data"; "splats"; "function"])
             writes)
  /\ file_content (snd (generate_datapack "My Scene" "say hi" ["out"]))
       ["out"; "splat_my_scene"; "pack.mcmeta"]
     = Some (pack_mcmeta_text "My Scene")
  /\ file_content (snd (generate_datapack "My Scene" "say hi" ["out"]))
       ["out"; "splat_my_scene"; "data"; "splats"; "function";
        "help.mcfunction"]
     = Some (help_text "my_scene")
  /\ file_content (snd (generate_datapack "My Scene" "say hi" ["out"]))
       ["out"; "splat_my_scene"; "data"; "splats"; "function";
        "my_scene.mcfunction"]
     = Some "say hi".
Proof.
  split; [split; reflexivity|].
  apply (datapack_files "My Scene" "say hi" ["out"]). reflexivity.
Defined.

(** The name [Help] is sanitized to [help]: the script file is the help
    file, and holds the help lines. *)
Example datapack_named_help :
  script_file ["out"] "Help"
  = ["out"; "splat_help"; "data"; "splats"; "function"; "help.mcfunction"]
  /\ file_content (snd (generate_datapack "Help" "say hi" ["out"]))
       (script_file ["out"] "Help")
     = Some (help_text "help").
Proof. split; reflexivity. Qed.

(** ** The pipeline *)

Lemma normalize_total (splats : list GaussianSplat) (target_size : Q)
    (center : bool) :
  exists normalized,
    normalize_splats splats target_size center = Ok normalized
    /\ length normalized = length splats.
Proof.
  destruct splats as [|s0 rest].
  - exists []. now split.
  - destruct (normalize_nonempty s0 rest target_size center)
      as (cx & cy & cz & sf & Hrun & _).
    eexists. split; [exact Hrun|]. now rewrite length_map.
Qed.

Section PipelineProperties.

Variable np_exp : Q -> Q.
Variable rng : Type.
Variable np_random_choice : sampler rng.

Local Abbreviation pipeline := (convert_ply_to_datapack np_exp rng np_random_choice).

(** The splats the pipeline hands to the emitter. *)
Lemma pipeline_run (vertex : vertex_table) (max_particles : Z)
    (target_size min_opacity : Q) (gen : rng) :
  match load_ply np_exp vertex with
  | Raise e => pipeline vertex max_particles target_size min_opacity gen
               = (Raise e, gen)
  | Ok splats =>
    exists normalized,
      normalize_splats splats target_size true = Ok normalized
      /\ length normalized = length splats
      /\ pipeline vertex max_particles target_size min_opacity gen
         = (Ok (generate_mcfunction
                  (if (max_particles <? Z.of_nat (length normalized))%Z
                   then py_slice_to (sorted_desc opacity normalized)
                          max_particles
                   else normalized) true min_opacity), gen)
  end.
Proof.
  unfold convert_ply_to_datapack.
  destruct (load_ply np_exp vertex) as [splats|e]; cbn [bind]; [|reflexivity].
  destruct (normalize_total splats target_size true) as (normalized & Hn & Hl).
  exists normalized. split; [exact Hn|]. split; [exact Hl|].
  rewrite Hn.
  destruct (max_particles <? Z.of_nat (length normalized))%Z eqn:E;
    [|reflexivity].
  apply Z.ltb_lt in E.
  now rewrite downsample_opacity.
Qed.

(** X17: the pipeline stops with an error exactly when the decoder does, and
    with the decoder's error; the normalizer, the selector and the emitter
    never fail in it.  It leaves the random generator as it found it: the
    selector is always called with the opacity method. *)
Theorem pipeline_outcome (vertex : vertex_table) (max_particles : Z)
    (target_size min_opacity : Q) (gen : rng) :
  snd (pipeline vertex max_particles target_size min_opacity gen) = gen
  /\ forall e,
       fst (pipeline vertex max_particles target_size min_opacity gen) = Raise e
       <-> load_ply np_exp vertex = Raise e.
Proof.
  pose proof (pipeline_run vertex max_particles target_size min_opacity gen)
    as H.
  destruct (load_ply np_exp vertex) as [splats|e0].
  - destruct H as (normalized & _ & _ & ->). cbn [fst snd].
    split; [reflexivity|]. intros e. split; discriminate.
  - rewrite H. cbn [fst snd]. split; [reflexivity|].
    intros e. split; intros H'; inversion H'; reflexivity.
Qed.

(** X18: with a budget [max_particles] that is not negative, the script the
    pipeline makes is a header that announces at most [max_particles]
    splats, followed by at most as many commands as announced. *)
Theorem pipeline_budget (vertex : vertex_table) (max_particles : Z)
    (target_size min_opacity : Q) (gen : rng) (text : string) :
  (0 <= max_particles)%Z ->
  fst (pipeline vertex max_particles target_size min_opacity gen) = Ok text ->
  exists (n : nat) (commands : list string),
    split_lines text = header n ++ commands
    /\ (Z.of_nat n <= max_particles)%Z
    /\ (length commands <= n)%nat.
Proof.
  intros Hmax Hrun.
  pose proof (pipeline_run vertex max_particles target_size min_opacity gen)
    as H.
  destruct (load_ply np_exp vertex) as [splats|e0];
    [|rewrite H in Hrun; discriminate Hrun].
  destruct H as (normalized & _ & _ & H). rewrite H in Hrun. cbn [fst] in Hrun.
  inversion Hrun as [Ht]. clear Hrun.
  rewrite script_lines.
  eexists. eexists. split; [reflexivity|]. split.
  - destruct (max_particles <? Z.of_nat (length normalized))%Z eqn:E.
    + unfold py_slice_to. rewrite (proj2 (Z.leb_le _ _) Hmax).
      rewrite length_firstn. lia.
    + apply Z.ltb_ge in E. exact E.
  - rewrite length_map. apply List.filter_length_le.
Qed.

End PipelineProperties.

(** X18 on the two-splat table with a budget of one. *)
Lemma pipeline_budget_witness :
  exists (n : nat) (commands : list string),
    split_lines
      (join_lines
         [ "# Generated by splat2mc";
           "# 1 Gaussian splats";
           "";
           "particle dust{color:[1.000,1.000,1.000],scale:1.25} ~-1.250 ~-2.500 ~-5.000 0 0 0 0 1 force" ])
    = header n ++ commands
    /\ (Z.of_nat n <= 1)%Z
    /\ (length commands <= n)%nat.
Proof.
  apply (pipeline_budget exp_approx unit first_indices table_two 1 10 0.1 tt).
  - lia.
  - vm_compute. reflexivity.
Defined.

(** ** Statistics *)

Lemma count_positive {A : Type} (a : A) (l : list A) :
  0 < inject_Z (Z.of_nat (length (a :: l))).
Proof.
  change 0 with (inject_Z 0). rewrite <- Zlt_Qlt. cbn [length]. lia.
Qed.

Lemma py_min_list_lowest (a : Q) (l : list Q) :
  exists mn, py_min_list (a :: l) = Ok mn /\ mn == lowest (a :: l).
Proof. eexists. split; [reflexivity|]. now apply fold_py_min. Qed.

Lemma py_max_list_highest (a : Q) (l : list Q) :
  exists mx, py_max_list (a :: l) = Ok mx /\ mx == highest (a :: l).
Proof. eexists. split; [reflexivity|]. now apply fold_py_max. Qed.

Lemma last_snoc {A : Type} (l : list A) (a d : A) : List.last (l ++ [a]) d = a.
Proof. apply last_last. Qed.

Lemma stats_values (a : Q) (rest : list Q) :
  let l := a :: rest in
  exists mn mx avg,
    py_min_list l = Ok mn /\ py_max_list l = Ok mx
    /\ py_div (py_sum l) (inject_Z (Z.of_nat (length l))) = Ok avg
    /\ mn == lowest l /\ mx == highest l.
Proof.
  cbv zeta.
  destruct (py_min_list_lowest a rest) as (mn & Hmn & Emn).
  destruct (py_max_list_highest a rest) as (mx & Hmx & Emx).
  pose proof (count_positive a rest) as Hn.
  exists mn, mx, (py_sum (a :: rest) / inject_Z (Z.of_nat (length (a :: rest)))).
  split; [exact Hmn|]. split; [exact Hmx|].
  split; [apply py_div_ok; lra|]. split; [exact Emn|exact Emx].
Qed.

(** X19: a statistics line of [info] over a list of values that is not
    empty.  The line is made without error: there is a minimum and a
    maximum, and the count the sum is divided by is not zero.  The minimum
    shown is a value of the list that no value is below, the maximum a value
    of the list that no value is above. *)
Theorem info_statistics (d : nat) (a : Q) (rest : list Q) :
  let l := a :: rest in
  exists (mn mx : Q) (average : string),
    stats_text d l
    = Ok ("min=" +:+ format_fixed d mn +:+ ", max=" +:+ format_fixed d mx
          +:+ ", avg=" +:+ average)
    /\ List.Forall (Qle mn) l /\ List.Exists (Qeq mn) l
    /\ List.Forall (fun v => v <= mx) l /\ List.Exists (Qeq mx) l.
Proof.
  cbv zeta.
  destruct (stats_values a rest)
    as (mn & mx & avg & Hmn & Hmx & Havg & Emn & Emx).
  exists mn, mx, (format_fixed d avg). unfold stats_text.
  rewrite Hmn, Hmx. cbn [bind]. rewrite Havg. cbn [bind].
  split; [reflexivity|].
  destruct (lowest_is_least a rest) as [Hlo Hlo'].
  destruct (highest_is_greatest a rest) as [Hhi Hhi'].
  split; [|split; [|split]].
  - eapply List.Forall_impl; [|exact Hlo]. intros v Hv. cbv beta in Hv.
    now rewrite Emn.
  - eapply List.Exists_impl; [|exact Hlo']. intros v Hv. cbv beta in Hv.
    now rewrite Emn.
  - eapply List.Forall_impl; [|exact Hhi]. intros v Hv. cbv beta in Hv.
    now rewrite Emx.
  - eapply List.Exists_impl; [|exact Hhi']. intros v Hv. cbv beta in Hv.
    now rewrite Emx.
Qed.

Lemma stats_text_ok (d : nat) (a : Q) (rest : list Q) :
  exists t, stats_text d (a :: rest) = Ok t.
Proof.
  destruct (stats_values a rest)
    as (mn & mx & avg & Hmn & Hmx & Havg & _).
  unfold stats_text. rewrite Hmn, Hmx. cbn [bind]. rewrite Havg. cbn [bind].
  eexists. reflexivity.
Qed.

Lemma bounds_text_ok (a : Q) (rest : list Q) :
  exists t, bounds_text (a :: rest) = Ok t.
Proof. eexists. reflexivity. Qed.

Lemma script_file_below (output : path) (s name : string) :
  below (output </> ("splat_" +:+ s)) (script_file output name) ->
  s = safe_name name.
Proof.
  intros [more H]. unfold script_file, path_join in H.
  rewrite <- !app_assoc in H. apply app_inv_head in H.
  cbn [app] in H. inversion H as [[Hs Hmore]]. cbn in Hs. now symmetry.
Qed.

(** ** The commands *)

Lemma file_events_app (a b : list event) :
  file_events (a ++ b) = file_events a ++ file_events b.
Proof. unfold file_events. apply List.filter_app. Qed.

Lemma file_events_out (texts : list string) : file_events (map Out texts) = [].
Proof. induction texts as [|t l IH]; [reflexivity|exact IH]. Qed.

Lemma file_events_datapack (name content : string) (output_dir : path) :
  file_events (snd (generate_datapack name content output_dir))
  = snd (generate_datapack name content output_dir).
Proof. reflexivity. Qed.

Lemma file_content_out (texts : list string) (p : path) :
  file_content (map Out texts) p = None.
Proof.
  induction texts as [|t l IH]; [reflexivity|].
  cbn [map file_content]. now rewrite IH.
Qed.

Lemma py_lower_char_twice (c : ascii) :
  py_lower_char (py_lower_char c) = py_lower_char c.
Proof. destruct c as [[] [] [] [] [] [] [] []]; vm_compute; reflexivity. Qed.

Lemma py_lower_twice (s : string) : py_lower (py_lower s) = py_lower s.
Proof.
  induction s as [|c s IH]; [reflexivity|].
  cbn [py_lower]. now rewrite py_lower_char_twice, IH.
Qed.

Lemma safe_name_lower (s : string) : safe_name (py_lower s) = safe_name s.
Proof. unfold safe_name. now rewrite py_lower_twice. Qed.

Section CommandProperties.

Variable np_exp : Q -> Q.
Variable rng : Type.
Variable np_random_choice : sampler rng.
Variable path_text : path -> string.
Variable float_text : Q -> string.
Variable exn_text : exn -> string.

Local Abbreviation pipeline :=
  (convert_ply_to_datapack np_exp rng np_random_choice).
Local Abbreviation conversion :=
  (convert_ply_to_datapack_io np_exp rng np_random_choice path_text float_text).
Local Abbreviation world := (world rng).

(** A run of the whole conversion, by the outcome of the pipeline. *)
Lemma conversion_run (ply : ply_file) (output_dir : path) (max_particles : Z)
    (target_size min_opacity : Q) (w : world) :
  match fst (pipeline (ply_vertex ply) max_particles target_size min_opacity
               (generator rng w)) with
  | Raise e =>
    conversion ply output_dir max_particles target_size min_opacity w
    = (mkWorld rng
         (events rng w ++ [Out ("Loading " +:+ ply_text ply +:+ "...")])
         (generator rng w),
       Raise e)
  | Ok text =>
    exists progress,
      conversion ply output_dir max_particles target_size min_opacity w
      = (mkWorld rng
           (events rng w ++ map Out progress
            ++ snd (generate_datapack (ply_stem ply) text output_dir)
            ++ [Out ("Done! Datapack at: "
                     +:+ path_text
                           (fst (generate_datapack (ply_stem ply) text
                                   output_dir)))])
           (generator rng w),
         Ok (fst (generate_datapack (ply_stem ply) text output_dir)))
  end.
Proof.
  pose proof (pipeline_run np_exp rng np_random_choice (ply_vertex ply)
                max_particles target_size min_opacity (generator rng w)) as H.
  unfold convert_ply_to_datapack_io, then_, print, emit, emit_all, lift, ret,
    with_generator.
  cbn [events generator].
  destruct (load_ply np_exp (ply_vertex ply)) as [splats|e0].
  - destruct H as (normalized & Hn & Hl & ->). cbn [fst]. rewrite Hn.
    cbn [events generator].
    destruct (max_particles <? Z.of_nat (length normalized))%Z eqn:E.
    + apply Z.ltb_lt in E. cbn [events generator].
      rewrite downsample_opacity by exact E.
      cbn [events generator generate_datapack].
      eexists [_; _; _; _; _; _]. cbn [map fst snd].
      rewrite <- !app_assoc. reflexivity.
    + cbn [events generator generate_datapack].
      eexists [_; _; _; _; _]. cbn [map fst snd].
      rewrite <- !app_assoc. reflexivity.
  - rewrite H. cbn [fst]. reflexivity.
Qed.

(** X20: the whole conversion does what the pipeline computes.  When the
    pipeline fails, the conversion fails with the same error and has
    touched no file; when the pipeline yields a script, the conversion
    makes the directories and writes the files of the datapack of that
    script, named after the stem of the input file, and nothing else, and
    returns the datapack's directory.  In both cases it only adds to the
    events and leaves the generator alone. *)
Theorem conversion_writes_pipeline_script (ply : ply_file) (output_dir : path)
    (max_particles : Z) (target_size min_opacity : Q) (w : world) :
  let run := conversion ply output_dir max_particles target_size min_opacity w in
  generator rng (fst run) = generator rng w
  /\ exists added,
       events rng (fst run) = events rng w ++ added
       /\ match fst (pipeline (ply_vertex ply) max_particles target_size
                       min_opacity (generator rng w)) with
          | Raise e => snd run = Raise e /\ file_events added = []
          | Ok text =>
            snd run
            = Ok (fst (generate_datapack (ply_stem ply) text output_dir))
            /\ file_events added
               = snd (generate_datapack (ply_stem ply) text output_dir)
          end.
Proof.
  cbv zeta.
  pose proof (conversion_run ply output_dir max_particles target_size
                min_opacity w) as H.
  destruct (fst (pipeline (ply_vertex ply) max_particles target_size
                   min_opacity (generator rng w))) as [text|e].
  - destruct H as (progress & ->). cbn [fst snd events generator].
    split; [reflexivity|]. eexists. split; [reflexivity|].
    split; [reflexivity|].
    rewrite !file_events_app, file_events_out, file_events_datapack.
    cbn [app]. apply app_nil_r.
  - rewrite H. cbn [fst snd events generator].
    split; [reflexivity|]. eexists. split; [reflexivity|].
    split; reflexivity.
Qed.

(** X21: the hint printed last by [convert], for a stem of ASCII
    characters whose sanitized form is not [help].  After a successful run
    the script file, named by the sanitized stem, holds the script of the
    pipeline, so that the function to call is [splats:<sanitized stem>],
    while the last line printed names [splats:<lower-cased stem>].  The two
    names are the same exactly when the lower-cased stem consists of
    lower-case letters, digits and underscores only. *)
Theorem convert_hint (ply : ply_file) (output : path) (max_particles : Z)
    (size min_opacity : Q) (w w' : world) :
  ascii_only (ply_stem ply) ->
  safe_name (ply_stem ply) <> "help" ->
  convert np_exp rng np_random_choice path_text float_text ply output
    max_particles size min_opacity w = (w', Ok tt) ->
  (exists text,
     fst (pipeline (ply_vertex ply) max_particles size min_opacity
            (generator rng w)) = Ok text
     /\ file_content (events rng w') (script_file output (ply_stem ply))
        = Some text)
  /\ List.last (events rng w') (Out "")
     = Out ("  Then: /reload and /function splats:"
            +:+ py_lower (ply_stem ply))
  /\ (py_lower (ply_stem ply) = safe_name (ply_stem ply)
      <-> safe_text (py_lower (ply_stem ply))).
Proof.
  intros _ Hhelp Hrun.
  unfold convert in Hrun. unfold then_ at 1 in Hrun. unfold emit at 1 in Hrun.
  unfold then_ at 1 in Hrun.
  pose proof (conversion_run ply output max_particles size min_opacity
                (mkWorld rng (events rng w ++ [MkdirParents output])
                   (generator rng w))) as H.
  cbn [events generator] in H.
  destruct (fst (pipeline (ply_vertex ply) max_particles size min_opacity
                   (generator rng w))) as [text|e].
  - destruct H as (progress & H).
    pose proof (datapack_script (ply_stem ply) text output Hhelp) as Hscript.
    set (gd := generate_datapack (ply_stem ply) text output) in *.
    rewrite H in Hrun. clear H.
    unfold then_, echo, emit in Hrun. cbn [events generator] in Hrun.
    apply pair_equal_spec in Hrun as [Hw _]. subst w'. cbn [events].
    split; [|split].
    + exists text. split; [reflexivity|].
      rewrite !file_content_app. cbn [file_content]. now rewrite Hscript.
    + apply last_snoc.
    + rewrite <- (safe_name_lower (ply_stem ply)).
      split; [intros E; symmetry in E|intros E; symmetry];
        now apply safe_name_fixed.
  - rewrite H in Hrun. discriminate Hrun.
Qed.

(** X22: [info] after decoding.  When the decoder fails, [info] fails with
    its error and prints nothing; on a file without splats it prints one
    line; on any other file it prints seven lines, the file, the count and
    five lines of statistics, and does not fail. *)
Theorem info_outcome (ply : ply_file) (w : world) :
  match load_ply np_exp (ply_vertex ply) with
  | Raise e => info np_exp rng ply w = (w, Raise e)
  | Ok [] =>
    info np_exp rng ply w
    = (mkWorld rng (events rng w ++ [Out "No splats found in file."])
         (generator rng w), Ok tt)
  | Ok (s :: rest) =>
    exists opacities scales xs ys zs,
      info np_exp rng ply w
      = (mkWorld rng
           (events rng w
            ++ map Out
                 [ "File: " +:+ ply_text ply;
                   "Splats: " +:+ format_grouped (S (length rest));
                   "Opacity: " +:+ opacities;
                   "Scale: " +:+ scales;
                   "Bounds X: " +:+ xs;
                   "Bounds Y: " +:+ ys;
                   "Bounds Z: " +:+ zs ])
           (generator rng w), Ok tt)
  end.
Proof.
  unfold info, then_ at 1, lift at 1.
  destruct (load_ply np_exp (ply_vertex ply)) as [[|s rest]|e];
    [reflexivity| |reflexivity].
  cbn [map].
  destruct (stats_text_ok 3 (opacity s) (map opacity rest)) as [t1 H1].
  destruct (stats_text_ok 6 (scale s) (map scale rest)) as [t2 H2].
  destruct (bounds_text_ok (x s) (map x rest)) as [t3 H3].
  destruct (bounds_text_ok (y s) (map y rest)) as [t4 H4].
  destruct (bounds_text_ok (z s) (map z rest)) as [t5 H5].
  exists t1, t2, t3, t4, t5.
  unfold then_, lift, echo, emit. cbn [events generator map].
  rewrite H1. cbn [events generator map]. rewrite H2.
  cbn [events generator map]. rewrite H3. cbn [events generator map].
  rewrite H4. cbn [events generator map]. rewrite H5. cbn [length map].
  rewrite <- !app_assoc. reflexivity.
Qed.

(** One turn of the loop of [batch], after its first message. *)
Lemma batch_step (ply : ply_file) (output : path) (max_particles : Z)
    (w : world) :
  exists added,
    try_except rng
      (then_ rng (conversion ply output max_particles 10.0 0.1)
         (fun _ => ret rng tt))
      (fun e => echo_err rng ("  Error: " +:+ exn_text e)) w
    = (mkWorld rng (events rng w ++ added) (generator rng w), Ok tt)
    /\ match fst (pipeline (ply_vertex ply) max_particles 10.0 0.1
                    (generator rng w)) with
       | Raise e =>
         added = [ Out ("Loading " +:+ ply_text ply +:+ "...");
                   Err ("  Error: " +:+ exn_text e) ]
       | Ok text =>
         exists progress done,
           added = map Out progress
                   ++ snd (generate_datapack (ply_stem ply) text output)
                   ++ [Out done]
       end.
Proof.
  pose proof (conversion_run ply output max_particles 10.0 0.1 w) as H.
  unfold try_except, then_ at 1.
  destruct (fst (pipeline (ply_vertex ply) max_particles 10.0 0.1
                   (generator rng w))) as [text|e].
  - destruct H as (progress & ->). unfold ret.
    eexists. split; [reflexivity|]. eexists. eexists. reflexivity.
  - rewrite H. unfold echo_err, emit. cbn [events generator].
    eexists. split; [rewrite <- app_assoc; reflexivity|]. reflexivity.
Qed.

Lemma batch_step_writes (ply : ply_file) (output : path) (max_particles : Z)
    (gen : rng) (added : list event) (p : path) (c : string) :
  match fst (pipeline (ply_vertex ply) max_particles 10.0 0.1 gen) with
  | Raise e =>
    added = [ Out ("Loading " +:+ ply_text ply +:+ "...");
              Err ("  Error: " +:+ exn_text e) ]
  | Ok text =>
    exists progress done,
      added = map Out progress
              ++ snd (generate_datapack (ply_stem ply) text output)
              ++ [Out done]
  end ->
  In (WriteText p c) added ->
  below (output </> ("splat_" +:+ safe_name (ply_stem ply))) p.
Proof.
  destruct (fst (pipeline (ply_vertex ply) max_particles 10.0 0.1 gen))
    as [text|e].
  - intros (progress & done & ->) Hin.
    rewrite !in_app_iff in Hin. destruct Hin as [Hin|[Hin|Hin]].
    + apply in_map_iff in Hin as (t & Ht & _). discriminate Ht.
    + exact (datapack_below (ply_stem ply) text output p c Hin).
    + destruct Hin as [Hin|[]]. discriminate Hin.
  - intros -> Hin. destruct Hin as [Hin|[Hin|[]]]; discriminate Hin.
Qed.

Lemma batch_loop_run (ply_files : list ply_file) (output : path)
    (max_particles : Z) (w : world) :
  exists added,
    batch_loop np_exp rng np_random_choice path_text float_text exn_text
      ply_files output max_particles w
    = (mkWorld rng (events rng w ++ added) (generator rng w), Ok tt)
    /\ (forall p c, In (WriteText p c) added ->
          exists g, In g ply_files
            /\ below (output </> ("splat_" +:+ safe_name (ply_stem g))) p)
    /\ (forall g e, In g ply_files ->
          fst (pipeline (ply_vertex g) max_particles 10.0 0.1
                 (generator rng w)) = Raise e ->
          In (Err ("  Error: " +:+ exn_text e)) added)
    /\ (forall f text, In f ply_files ->
          fst (pipeline (ply_vertex f) max_particles 10.0 0.1
                 (generator rng w)) = Ok text ->
          safe_name (ply_stem f) <> "help" ->
          (forall g, In g ply_files ->
             safe_name (ply_stem g) = safe_name (ply_stem f) -> g = f) ->
          file_content added (script_file output (ply_stem f)) = Some text).
Proof.
  revert w. induction ply_files as [|ply rest IH]; intros w.
  - exists []. cbn [batch_loop]. unfold ret. rewrite app_nil_r.
    split; [now destruct w|]. split; [intros p c []|].
    split; [intros g e []|intros f text []].
  - cbn [batch_loop]. unfold then_ at 1, echo at 1, emit at 1.
    unfold then_ at 1.
    set (w1 := mkWorld rng
                 (events rng w
                  ++ [Out (newline +:+ "Processing " +:+ ply_name ply
                           +:+ "...")])
                 (generator rng w)).
    destruct (batch_step ply output max_particles w1) as (added1 & -> & Hone).
    destruct (IH (mkWorld rng (events rng w1 ++ added1) (generator rng w1)))
      as (added2 & -> & Hwrites & Herrors & Hfiles).
    subst w1. cbn [events generator] in Hone, Hwrites, Herrors, Hfiles |- *.
    exists ([Out (newline +:+ "Processing " +:+ ply_name ply +:+ "...")]
            ++ added1 ++ added2).
    split; [now rewrite <- !app_assoc|].
    split; [|split].
    + intros p c Hin. rewrite !in_app_iff in Hin.
      destruct Hin as [[Hin|[]]|[Hin|Hin]]; [discriminate Hin| |].
      * exists ply. split; [now left|].
        eapply batch_step_writes; [exact Hone|exact Hin].
      * destruct (Hwrites p c Hin) as (g & Hg & Hb).
        exists g. split; [now right|exact Hb].
    + intros g e [->|Hg] Hfail; rewrite !in_app_iff.
      * rewrite Hfail in Hone. subst added1. right. left. right. now left.
      * right. right. exact (Herrors g e Hg Hfail).
    + intros f text Hf Hrun Hsafe Huniq.
      assert (Hrest : In f rest ->
                file_content added2 (script_file output (ply_stem f))
                = Some text).
      { intros Hin. apply Hfiles; [exact Hin|exact Hrun|exact Hsafe|].
        intros g Hg. apply Huniq. now right. }
      rewrite !file_content_app.
      destruct (file_content added2 (script_file output (ply_stem f)))
        as [c|] eqn:E2.
      * pose proof (file_content_written _ _ _ E2) as Hw.
        destruct (Hwrites _ _ Hw) as (g & Hg & Hb).
        apply script_file_below in Hb.
        assert (g = f) by (apply Huniq; [now right|exact Hb]). subst g.
        specialize (Hrest Hg). congruence.
      * destruct Hf as [->|Hf]; [|specialize (Hrest Hf); congruence].
        rewrite Hrun in Hone. destruct Hone as (progress & done & ->).
        rewrite !file_content_app. cbn [file_content].
        now rewrite datapack_script.
Qed.

Lemma batch_run (splat_dir : path) (ply_files : list ply_file)
    (output : path) (max_particles : Z) (w : world) :
  ply_files <> [] ->
  let start :=
    mkWorld rng
      ((events rng w
        ++ [Out ("Found " +:+ count_text (length ply_files) +:+ " PLY files")])
       ++ [MkdirParents output])
      (generator rng w) in
  exists added,
    batch np_exp rng np_random_choice path_text float_text exn_text
      splat_dir ply_files output max_particles w
    = (mkWorld rng
         ((events rng start ++ added)
          ++ [Out (newline +:+ check_mark +:+ " Done! Datapacks in: "
                   +:+ path_text output)])
         (generator rng w), Ok tt)
    /\ batch_loop np_exp rng np_random_choice path_text float_text exn_text
         ply_files output max_particles start
       = (mkWorld rng (events rng start ++ added) (generator rng w), Ok tt).
Proof.
  intros Hne start. destruct ply_files as [|f0 rest]; [contradiction|].
  destruct (batch_loop_run (f0 :: rest) output max_particles start)
    as (added & Hloop & _).
  exists added. split; [|exact Hloop].
  unfold batch, then_, echo, emit. cbn [events generator].
  fold start. rewrite Hloop. reflexivity.
Qed.

(** X23: in [batch] a file that cannot be converted does not stop the
    others.  Let the stems of the files found be of ASCII characters.  If
    the pipeline yields a script for a file among those found, the sanitized
    stem of the file is not [help], and no other file found has the same
    sanitized stem, then after the run the script file of this file holds
    this script, whatever happened to the other files; the command itself
    ends without error and leaves the generator alone. *)
Theorem batch_isolates_failures (splat_dir : path)
    (ply_files : list ply_file) (output : path) (max_particles : Z)
    (w : world) (f : ply_file) (text : string) :
  (forall g, In g ply_files -> ascii_only (ply_stem g)) ->
  In f ply_files ->
  fst (pipeline (ply_vertex f) max_particles 10.0 0.1 (generator rng w))
  = Ok text ->
  safe_name (ply_stem f) <> "help" ->
  (forall g, In g ply_files ->
     safe_name (ply_stem g) = safe_name (ply_stem f) -> g = f) ->
  let run := batch np_exp rng np_random_choice path_text float_text exn_text
               splat_dir ply_files output max_particles w in
  snd run = Ok tt
  /\ generator rng (fst run) = generator rng w
  /\ file_content (events rng (fst run)) (script_file output (ply_stem f))
     = Some text.
Proof.
  intros _ Hf Hrun Hsafe Huniq. cbv zeta.
  assert (Hne : ply_files <> []) by (intros ->; destruct Hf).
  destruct (batch_run splat_dir ply_files output max_particles w Hne)
    as (added & -> & Hloop).
  cbn [fst snd events generator]. split; [reflexivity|].
  split; [reflexivity|].
  destruct (batch_loop_run ply_files output max_particles
              (mkWorld rng
                 ((events rng w
                   ++ [Out ("Found " +:+ count_text (length ply_files)
                            +:+ " PLY files")])
                  ++ [MkdirParents output])
                 (generator rng w)))
    as (added' & Hloop' & _ & _ & Hfiles).
  cbn [events generator] in Hloop, Hloop', Hfiles.
  rewrite Hloop in Hloop'. inversion Hloop' as [Happ].
  apply app_inv_head in Happ. subst added'.
  rewrite !file_content_app. cbn [file_content].
  now rewrite (Hfiles f text Hf Hrun Hsafe Huniq).
Qed.

(** X24: [batch] reports the failure of a file and goes on.  If the
    pipeline fails on a file among those found, the error is written to
    standard error in a line of its own; the command still ends without
    error, and its last line is the closing message. *)
Theorem batch_reports_errors (splat_dir : path) (ply_files : list ply_file)
    (output : path) (max_particles : Z) (w : world) (g : ply_file)
    (e : exn) :
  In g ply_files ->
  fst (pipeline (ply_vertex g) max_particles 10.0 0.1 (generator rng w))
  = Raise e ->
  let run := batch np_exp rng np_random_choice path_text float_text exn_text
               splat_dir ply_files output max_particles w in
  snd run = Ok tt
  /\ In (Err ("  Error: " +:+ exn_text e)) (events rng (fst run))
  /\ List.last (events rng (fst run)) (Out "")
     = Out (newline +:+ check_mark +:+ " Done! Datapacks in: "
            +:+ path_text output).
Proof.
  intros Hg Hfail. cbv zeta.
  assert (Hne : ply_files <> []) by (intros ->; destruct Hg).
  destruct (batch_run splat_dir ply_files output max_particles w Hne)
    as (added & -> & Hloop).
  cbn [fst snd events generator]. split; [reflexivity|].
  destruct (batch_loop_run ply_files output max_particles
              (mkWorld rng
                 ((events rng w
                   ++ [Out ("Found " +:+ count_text (length ply_files)
                            +:+ " PLY files")])
                  ++ [MkdirParents output])
                 (generator rng w)))
    as (added' & Hloop' & _ & Herrors & _).
  cbn [events generator] in Hloop, Hloop', Herrors.
  rewrite Hloop in Hloop'. inversion Hloop' as [Happ].
  apply app_inv_head in Happ. subst added'.
  split.
  - rewrite !in_app_iff. left. right. exact (Herrors g e Hg Hfail).
  - apply last_snoc.
Qed.

End CommandProperties.

(** X23 on a directory with a broken file and a scene, a budget of one. *)
Lemma batch_isolates_failures_witness :
  let run := batch exp_approx unit first_indices slash_text (format_fixed 1)
               exn_name ["in"] [broken_file; scene_file] ["out"] 1
               (mkWorld unit [] tt) in
  snd run = Ok tt
  /\ generator unit (fst run) = tt
  /\ file_content (events unit (fst run))
       ["out"; "splat_my_scene"; "data"; "splats"; "function";
        "my_scene.mcfunction"]
     = Some (join_lines
               [ "# Generated by splat2mc";
                 "# 1 Gaussian splats";
                 "";
                 "particle dust{color:[1.000,1.000,1.000],scale:1.25} ~-1.250 ~-2.500 ~-5.000 0 0 0 0 1 force" ]).
Proof.
  apply (batch_isolates_failures exp_approx unit first_indices slash_text
           (format_fixed 1) exn_name ["in"] [broken_file; scene_file]
           ["out"] 1 (mkWorld unit [] tt) scene_file).
  - intros g [<-|[<-|[]]]; reflexivity.
  - right. left. reflexivity.
  - vm_compute. reflexivity.
  - vm_compute. discriminate.
  - intros g [<-|[<-|[]]]; vm_compute; intros H;
      first [reflexivity | discriminate H].
Defined.

(** X24 on the same directory. *)
Lemma batch_reports_errors_witness :
  let run := batch exp_approx unit first_indices slash_text (format_fixed 1)
               exn_name ["in"] [broken_file; scene_file] ["out"] 1
               (mkWorld unit [] tt) in
  snd run = Ok tt
  /\ In (Err "  Error: ValueError") (events unit (fst run))
  /\ List.last (events unit (fst run)) (Out "")
     = Out (newline +:+ check_mark +:+ " Done! Datapacks in: out").
Proof.
  apply (batch_reports_errors exp_approx unit first_indices slash_text
           (format_fixed 1) exn_name ["in"] [broken_file; scene_file]
           ["out"] 1 (mkWorld unit [] tt) broken_file ValueError).
  - left. reflexivity.
  - vm_compute. reflexivity.
Defined.

(** X21 on the scene file: the hint names [splats:my scene], the script is
    in [my_scene.mcfunction]. *)
Lemma convert_hint_witness :
  (ascii_only "My Scene"
   /\ py_lower "My Scene" = "my scene" /\ safe_name "My Scene" = "my_scene")
  /\ (exists text,
        fst (convert_ply_to_datapack exp_approx unit first_indices table_two
               5000 10.0 0.1 tt) = Ok text
        /\ file_content
             (events unit
                (fst (convert exp_approx unit first_indices slash_text
                        (format_fixed 1) scene_file ["out"] 5000 10.0 0.1
                        (mkWorld unit [] tt))))
             (script_file ["out"] "My Scene")
           = Some text)
  /\ List.last
       (events unit
          (fst (convert exp_approx unit first_indices slash_text
                  (format_fixed 1) scene_file ["out"] 5000 10.0 0.1
                  (mkWorld unit [] tt))))
       (Out "")
     = Out "  Then: /reload and /function splats:my scene"
  /\ (py_lower "My Scene" = safe_name "My Scene"
      <-> safe_text (py_lower "My Scene")).
Proof.
  split; [repeat split; reflexivity|].
  apply (convert_hint exp_approx unit first_indices slash_text
           (format_fixed 1) scene_file ["out"] 5000 10.0 0.1
           (mkWorld unit [] tt)).
  - reflexivity.
  - vm_compute. discriminate.
  - vm_compute. reflexivity.
Defined.
